(** * Acoustic diagnosis of motors: the pipeline of Acoustic_TF_LSTM_MFCC.ipynb

    A shallow embedding of the notebook's pipeline code: signal
    normalisation, the half-overlapping window generator, the feature
    extraction loop, the one-hot label encoding, the mini-batch selection
    of the training loop, the loss node and the inference-time aggregation.

    Conventions.
    - Python [int] is [Z]; [len] returns a [Z].
    - Python sequences and the first axis of numpy arrays are lists; slicing
      [a[i:j]] is [py_slice], with Python's clamping of out-of-range and
      negative bounds (a slice never raises).
    - The local variable [start] of the generator [windows] becomes a Python
      [float] after the first [start += window_size / 2].  Its values are
      the half-integers [k * window_size / 2], which binary64 represents
      exactly below 2^52, so it is modelled by an exact rational [Q];
      [int(...)] is truncation towards zero.
    - Audio samples are IEEE binary64 numbers ([PrimFloat.float]).
    - A call that can raise returns an [outcome]; a loop whose termination
      depends on its input takes fuel and returns [None] when it runs out. *)

From Stdlib Require Import ZArith QArith Qround List Sorted Permutation Bool Lia String Ascii.
From Stdlib Require Import Floats.PrimFloat Floats.SpecFloat.
From Stdlib Require Uint63.
From Stdlib Require Import Reals Lra.
Import ListNotations.

Local Open Scope Z_scope.

(** ** Python primitives *)

Inductive exn : Type :=
| IndexError
| ZeroDivisionError
| ValueError
| DegenerateSignalError. (* named by the specification; no statement of the
                            notebook raises it *)

Inductive outcome (A : Type) : Type :=
| Returns (a : A)
| Raises (e : exn).

Arguments Returns {A} a.
Arguments Raises {A} e.

Definition bind {A B : Type} (m : outcome A) (k : A -> outcome B) : outcome B :=
  match m with
  | Returns a => k a
  | Raises e => Raises e
  end.

Notation "x <- m ;; k" := (bind m (fun x => k))
  (at level 61, m at next level, right associativity).

Definition len {A : Type} (l : list A) : Z := Z.of_nat (List.length l).

(** Normalisation of one slice bound against a sequence of length [n]. *)
Definition py_clamp (n i : Z) : Z :=
  if i <? 0 then Z.max (i + n) 0 else Z.min i n.

(** [l[i:j]] *)
Definition py_slice {A : Type} (l : list A) (i j : Z) : list A :=
  let lo := py_clamp (len l) i in
  let hi := py_clamp (len l) j in
  firstn (Z.to_nat (hi - lo)) (skipn (Z.to_nat lo) l).

(** [l[i]] *)
Definition py_getitem {A : Type} (l : list A) (i : Z) : outcome A :=
  let i' := if i <? 0 then i + len l else i in
  if (i' <? 0) || (len l <=? i') then Raises IndexError
  else match nth_error l (Z.to_nat i') with
       | Some a => Returns a
       | None => Raises IndexError
       end.

(** [a % b] on integers; like [Z.modulo], the result has the sign of [b]. *)
Definition py_mod (a b : Z) : outcome Z :=
  if b =? 0 then Raises ZeroDivisionError else Returns (a mod b).

(** [range(n)] *)
Definition py_range (n : Z) : list Z := map Z.of_nat (seq 0 (Z.to_nat n)).

(** [int(x)] for a float [x]: truncation towards zero. *)
Definition py_int (x : Q) : Z :=
  if Qle_bool 0 x then Qfloor x else Qceiling x.

Definition Qlt_bool (x y : Q) : bool := negb (Qle_bool y x).

(** ** Window generator

    [[
    def windows(data, window_size):
        start = 0
        while start < len(data):
            yield int(start), int(start + window_size)
            start += (window_size / 2)
    ]]

    The suspended generator is its local variable [start]; [windows_next]
    is one resumption: it yields a pair and the updated [start], or stops. *)

Definition windows_init : Q := 0%Q.

Definition windows_next {A : Type} (data : list A) (window_size : Z) (start : Q)
  : option ((Z * Z) * Q) :=
  if Qlt_bool start (inject_Z (len data))
  then Some ((py_int start, py_int (start + inject_Z window_size)),
             (start + inject_Z window_size / 2)%Q)
  else None.

(** Draining the generator: [Some] of everything it yields when it stops
    within [fuel] resumptions, [None] otherwise. *)
Fixpoint windows_drain {A : Type} (fuel : nat) (data : list A) (window_size : Z)
  (start : Q) : option (list (Z * Z)) :=
  match fuel with
  | O => None
  | S fuel' =>
      match windows_next data window_size start with
      | None => Some []
      | Some (p, start') =>
          option_map (cons p) (windows_drain fuel' data window_size start')
      end
  end.

Definition windows {A : Type} (fuel : nat) (data : list A) (window_size : Z)
  : option (list (Z * Z)) :=
  windows_drain fuel data window_size windows_init.

(** The test that the caller of the generator applies to a yielded pair:
    [len(sound_clip[start:end]) == window_size]. *)
Definition full_length {A : Type} (data : list A) (window_size : Z) (p : Z * Z)
  : bool :=
  len (py_slice data (fst p) (snd p)) =? window_size.

(** The yielded pairs that pass the caller's test. *)
Definition surviving_windows {A : Type} (fuel : nat) (data : list A)
  (window_size : Z) : option (list (Z * Z)) :=
  option_map (filter (full_length data window_size)) (windows fuel data window_size).

(** The window count as the specification words it,
    [floor((L - window_size) / (window_size/2)) + 1] when [L >= window_size]
    and zero otherwise, the half window size being a rational. *)
Definition spec_window_count (L window_size : Z) : Z :=
  if L <? window_size then 0
  else Qfloor (inject_Z (L - window_size) / (inject_Z window_size / 2)) + 1.

(** The same count with the half window size read as an integer quotient. *)
Definition spec_window_count_int (L window_size : Z) : Z :=
  if L <? window_size then 0
  else (L - window_size) / (window_size / 2) + 1.

(** Closed form of what the generator yields.  [m] is twice the value of
    [start]; [steps_left] is the number of resumptions that still yield. *)
Fixpoint half_pairs (n : nat) (m w : Z) : list (Z * Z) :=
  match n with
  | O => []
  | S n' => (m / 2, m / 2 + w) :: half_pairs n' (m + w) w
  end.

Definition steps_left (L w m : Z) : nat := Z.to_nat ((2 * L - m + w - 1) / w).

(** ** Signal normaliser

    [[
    def feature_normalize(dataset):
        mu = np.mean(dataset, axis=0)
        sigma = np.std(dataset, axis=0)
        return (dataset - mu) / sigma
    ]]

    [np.mean] is the sum divided by the element count and [np.std] is
    [sqrt(mean(abs(x - x.mean())**2))].  The sum is taken left to right,
    which is numpy's order for arrays of fewer than eight elements.
    numpy's array division does not raise: a zero divisor gives nan or an
    infinity (with a RuntimeWarning), so the function always returns. *)

Definition float_of_Z (z : Z) : float := PrimFloat.of_uint63 (Uint63.of_Z z).

Definition np_sum (a : list float) : float := fold_left PrimFloat.add a 0%float.

Definition np_mean (a : list float) : float :=
  PrimFloat.div (np_sum a) (float_of_Z (len a)).

Definition np_std (a : list float) : float :=
  let mu := np_mean a in
  PrimFloat.sqrt
    (np_mean (map (fun x => let d := PrimFloat.abs (PrimFloat.sub x mu) in
                            PrimFloat.mul d d) a)).

Definition feature_normalize (dataset : list float) : outcome (list float) :=
  let mu := np_mean dataset in
  let sigma := np_std dataset in
  Returns (map (fun x => PrimFloat.div (PrimFloat.sub x mu) sigma) dataset).

(** ** Feature extractor *)

(** A two-dimensional numpy array: its shape and its elements in row-major
    order. *)
Record ndarray2 : Type := mk_ndarray2 {
  shape : Z * Z;
  data : list float
}.

(** [a.T] *)
Definition ndarray_T (a : ndarray2) : ndarray2 :=
  let '(r, c) := shape a in
  {| shape := (c, r);
     data := flat_map
               (fun j => map (fun i => nth (Z.to_nat (i * c + j)) (data a) 0%float)
                             (py_range r))
               (py_range c) |}.

Definition hop_length : Z := 512.

Section FeatureExtractor.

(** External collaborators: [os.path.join], [librosa.load] (samples and
    sampling rate of a file) and [librosa.feature.mfcc(y, sr, n_mfcc)]. *)
Variable os_path_join : string -> string -> string.
Variable librosa_load : string -> list float * Z.
Variable librosa_mfcc : list float -> Z -> Z -> ndarray2.

(** The loop over the windows of one clip:
    [[
    for (start,end) in windows(sound_clip,window_size):
        if(len(sound_clip[start:end]) == window_size):
            signal = sound_clip[start:end]
            mfcc = librosa.feature.mfcc(y=signal, sr=s, n_mfcc = bands).T
            mfccs.append(mfcc)
            labels.append(label)
    ]]
    [gen] is the state of the generator being consumed. *)
Fixpoint clip_loop (fuel : nat) (sound_clip : list float) (s : Z)
  (label : string) (window_size bands : Z) (gen : Q)
  (mfccs : list ndarray2) (labels : list string)
  : option (list ndarray2 * list string) :=
  match fuel with
  | O => None
  | S fuel' =>
      match windows_next sound_clip window_size gen with
      | None => Some (mfccs, labels)
      | Some ((start, end_), gen') =>
          if len (py_slice sound_clip start end_) =? window_size then
            let signal := py_slice sound_clip start end_ in
            let mfcc := ndarray_T (librosa_mfcc signal s bands) in
            clip_loop fuel' sound_clip s label window_size bands gen'
                      (mfccs ++ [mfcc]) (labels ++ [label])
          else
            clip_loop fuel' sound_clip s label window_size bands gen'
                      mfccs labels
      end
  end.

(** The loop over the files, [i] being the index given by [enumerate]. *)
Fixpoint files_loop (fuel : nat) (base_dir : string) (i : Z)
  (sound_file_paths sound_names : list string) (window_size bands : Z)
  (mfccs : list ndarray2) (labels : list string)
  : option (outcome (list ndarray2 * list string)) :=
  match sound_file_paths with
  | [] => Some (Returns (mfccs, labels))
  | sound_file_path :: rest =>
      let sound_file_full_path := os_path_join base_dir sound_file_path in
      let '(sound_clip, s) := librosa_load sound_file_full_path in
      match feature_normalize sound_clip with
      | Raises e => Some (Raises e)
      | Returns sound_clip =>
          match py_getitem sound_names i with
          | Raises e => Some (Raises e)
          | Returns label =>
              match clip_loop fuel sound_clip s label window_size bands
                              windows_init mfccs labels with
              | None => None
              | Some (mfccs', labels') =>
                  files_loop fuel base_dir (i + 1) rest sound_names
                             window_size bands mfccs' labels'
              end
          end
      end
  end.

(** [extract_features(base_dir, sound_file_paths, sound_names, bands, frames)] *)
Definition extract_features (fuel : nat) (base_dir : string)
  (sound_file_paths sound_names : list string) (bands frames : Z)
  : option (outcome (list ndarray2 * list string)) :=
  let window_size := 512 * (frames - 1) in
  files_loop fuel base_dir 0 sound_file_paths sound_names window_size bands
             [] [].

(** The feature window computed from the samples of one yielded pair. *)
Definition window_feature (sound_clip : list float) (s bands : Z) (p : Z * Z)
  : ndarray2 :=
  ndarray_T (librosa_mfcc (py_slice sound_clip (fst p) (snd p)) s bands).



End FeatureExtractor.

(** ** Label encoding

    [[
    def one_hot_encode(labels):
        return np.asarray(pd.get_dummies(labels), dtype = np.float32)
    ]]

    [pd.get_dummies] makes one indicator column per distinct value, the
    columns in sorted order of the values (strings compare by code point). *)

Fixpoint insert_sorted (s : string) (l : list string) : list string :=
  match l with
  | [] => [s]
  | x :: r =>
      match String.compare s x with
      | Lt => s :: l
      | Eq => l
      | Gt => x :: insert_sorted s r
      end
  end.

Definition get_dummies_columns (labels : list string) : list string :=
  fold_right insert_sorted [] labels.

(** The indicator row of one label over the columns. *)
Definition one_hot_row (columns : list string) (l : string) : list float :=
  map (fun c => if String.eqb l c then 1%float else 0%float) columns.

Definition one_hot_encode (labels : list string) : list (list float) :=
  map (one_hot_row (get_dummies_columns labels)) labels.

(** Position of the first occurrence of [s] in [l]. *)
Fixpoint list_index (s : string) (l : list string) : option Z :=
  match l with
  | [] => None
  | x :: r => if String.eqb s x then Some 0
              else option_map Z.succ (list_index s r)
  end.

(** The class index that training assigns to a class name: the column of
    its indicator in the one-hot encoded labels. *)
Definition training_class_index (labels : list string) (name : string) : option Z :=
  list_index name (get_dummies_columns labels).

(** Whether the class name [c] occurs among the labels. *)
Definition present (c : string) (labels : list string) : bool :=
  existsb (String.eqb c) labels.

(** The notebook's training corpus. *)
Definition sound_names : list string :=
  ["new"; "new"; "used"; "used"; "red"; "red"]%string.

(** The label list of the inference cell. *)
Definition LABELS : list string := ["new"; "used"; "red"]%string.

Definition inference_class_index (name : string) : option Z :=
  list_index name LABELS.

(** ** Trainer

    [[
    for itr in range(training_iters):
        offset = (itr * batch_size) % (labels.shape[0] - batch_size)
        batch_x = X_train[offset:(offset + batch_size), :, :]
        batch_y = y_train[offset:(offset + batch_size), :]
        _, c = session.run([optimizer, loss_f], feed_dict={...})
        if itr % display_step == 0:
            acc = session.run(accuracy, feed_dict={...})
            loss = session.run(loss_f, feed_dict={...})
            print(...)
    ]]

    [labels] is the one-hot encoding of the whole corpus, [X_train] and
    [y_train] the training part of its split. *)

Definition training_iters : Z := 300.
Definition batch_size : Z := 5.
Definition display_step : Z := 100.

Section Trainer.

(** [X]: a feature window, [Y]: a one-hot label row, [params]: the
    variables held by the TensorFlow session.  The session runs are the
    external optimisation engine; they accept a batch of any length, the
    placeholders being declared with batch dimension [None]. *)
Variables X Y params : Type.
Variable run_optimizer : params -> list X -> list Y -> params * float.
Variable run_accuracy : params -> list X -> list Y -> float.
Variable run_loss : params -> list X -> list Y -> float.

Record train_state : Type := mk_train_state {
  session : params;
  fed : list (Z * list X * list Y); (* iteration and batch of every gradient step *)
  printed : list (Z * float * float)  (* iteration, loss, accuracy *)
}.

Definition batch_offset (labels : list Y) (batch_size itr : Z) : outcome Z :=
  py_mod (itr * batch_size) (len labels - batch_size).

(** What iteration [itr] records in [fed] when the offset is defined. *)
Definition batch_of (labels : list Y) (X_train : list X) (y_train : list Y)
  (batch_size itr : Z) : Z * list X * list Y :=
  let offset := (itr * batch_size) mod (len labels - batch_size) in
  (itr, py_slice X_train offset (offset + batch_size),
        py_slice y_train offset (offset + batch_size)).

Definition train_iteration (labels : list Y) (X_train : list X)
  (y_train : list Y) (batch_size display_step : Z)
  (st : train_state) (itr : Z) : outcome train_state :=
  offset <- batch_offset labels batch_size itr ;;
  let batch_x := py_slice X_train offset (offset + batch_size) in
  let batch_y := py_slice y_train offset (offset + batch_size) in
  let '(session', c) := run_optimizer (session st) batch_x batch_y in
  let fed' := fed st ++ [(itr, batch_x, batch_y)] in
  r <- py_mod itr display_step ;;
  if r =? 0 then
    let acc := run_accuracy session' batch_x batch_y in
    let loss := run_loss session' batch_x batch_y in
    Returns (mk_train_state session' fed' (printed st ++ [(itr, loss, acc)]))
  else
    Returns (mk_train_state session' fed' (printed st)).

Fixpoint train_loop (labels : list Y) (X_train : list X) (y_train : list Y)
  (batch_size display_step : Z) (itrs : list Z) (st : train_state)
  : outcome train_state :=
  match itrs with
  | [] => Returns st
  | itr :: rest =>
      st' <- train_iteration labels X_train y_train batch_size display_step
                             st itr ;;
      train_loop labels X_train y_train batch_size display_step rest st'
  end.

Definition train (labels : list Y) (X_train : list X) (y_train : list Y)
  (training_iters batch_size display_step : Z) (session0 : params)
  : outcome train_state :=
  train_loop labels X_train y_train batch_size display_step
             (py_range training_iters) (mk_train_state session0 [] []).

End Trainer.

Arguments batch_offset {Y} labels batch_size itr.
Arguments batch_of {X Y} labels X_train y_train batch_size itr.
Arguments session {X Y params} _.
Arguments fed {X Y params} _.
Arguments printed {X Y params} _.

(** ** Loss

    [[
    loss_f = -tf.reduce_sum(y * tf.log(prediction))
    ]]

    over [y] and [prediction] of shape [batch, n_classes].  The arithmetic
    of the float32 tensors is idealised by the real numbers. *)

Definition n_classes : Z := 3.

Definition tensor2 : Type := list (list R).

Fixpoint zip_with {A B C : Type} (f : A -> B -> C) (a : list A) (b : list B)
  : list C :=
  match a, b with
  | x :: a', y :: b' => f x y :: zip_with f a' b'
  | _, _ => []
  end.

Definition tf_log (t : tensor2) : tensor2 := map (map ln) t.

(** Elementwise product of two tensors of the same shape. *)
Definition tf_mul (a b : tensor2) : tensor2 := zip_with (zip_with Rmult) a b.

Definition tf_reduce_sum (t : tensor2) : R := fold_right Rplus 0%R (List.concat t).

Definition loss_f (y prediction : tensor2) : R :=
  (- tf_reduce_sum (tf_mul y (tf_log prediction)))%R.

(** The loss as the specification words it: minus the sum, over every
    example [i] of the batch and every class [j], of
    [true_label * log(predicted_probability)]. *)
Definition sum_upto (n : nat) (f : nat -> R) : R :=
  fold_right Rplus 0%R (map f (seq 0 n)).

Definition entry (t : tensor2) (i j : nat) : R := nth j (nth i t []) 0%R.

Definition spec_cross_entropy (batch classes : nat) (y prediction : tensor2) : R :=
  (- sum_upto batch (fun i =>
       sum_upto classes (fun j => entry y i j * ln (entry prediction i j))))%R.

(** ** Inference aggregator

    [[
    y_predicts = session.run(prediction, feed_dict={x: test_features, keep_prob: 1})
    LABELS = ["new","used","red"]
    predicted_logit = stats.mode(np.argmax(y_predicts,1))[0][0]
    predicted_label = LABELS[predicted_logit]
    predicted_probability = stats.mode(np.argmax(y_predicts,1))[1][0] / len(y_predicts)
    ]] *)

(** numpy's argmax of one row of floats: the first index of the maximum, a
    nan counting as maximal; [ValueError] on an empty row. *)
Fixpoint argmax_scan (row : list float) (i : Z) (mp : float) (max_ind : Z) : Z :=
  match row with
  | [] => max_ind
  | x :: rest =>
      if negb (PrimFloat.leb x mp) then
        if PrimFloat.is_nan x then i else argmax_scan rest (i + 1) x i
      else argmax_scan rest (i + 1) mp max_ind
  end.

Definition np_argmax (row : list float) : outcome Z :=
  match row with
  | [] => Raises ValueError
  | x :: rest => Returns (if PrimFloat.is_nan x then 0 else argmax_scan rest 1 x 0)
  end.

(** [np.argmax(a, 1)] *)
Fixpoint np_argmax_axis1 (a : list (list float)) : outcome (list Z) :=
  match a with
  | [] => Returns []
  | row :: rest =>
      i <- np_argmax row ;;
      is_ <- np_argmax_axis1 rest ;;
      Returns (i :: is_)
  end.

(** [np.unique]: the distinct values, sorted. *)
Fixpoint insert_unique (v : Z) (l : list Z) : list Z :=
  match l with
  | [] => [v]
  | x :: r =>
      match v ?= x with
      | Lt => v :: l
      | Eq => l
      | Gt => x :: insert_unique v r
      end
  end.

Definition np_unique (a : list Z) : list Z := fold_right insert_unique [] a.

Definition count_equal (score : Z) (a : list Z) : Z :=
  len (filter (Z.eqb score) a).

(** [scipy.stats.mode] of a one-dimensional integer array: the mode and its
    count, each as a one-element array (both empty for an empty input).
    The scores are visited in increasing order and a score replaces the
    current mode only when its count is strictly larger:
    [[
    scores = np.unique(np.ravel(a))
    oldmostfreq = 0; oldcounts = 0
    for score in scores:
        counts = np.sum(a == score)
        mostfrequent = np.where(counts > oldcounts, score, oldmostfreq)
        oldcounts = np.maximum(counts, oldcounts)
        oldmostfreq = mostfrequent
    ]] *)
Definition mode_step (a : list Z) (old : Z * Z) (score : Z) : Z * Z :=
  let '(oldmostfreq, oldcounts) := old in
  let counts := count_equal score a in
  (if oldcounts <? counts then score else oldmostfreq, Z.max counts oldcounts).

Definition stats_mode (a : list Z) : list Z * list Z :=
  match a with
  | [] => ([], [])
  | _ :: _ =>
      let '(mostfrequent, counts) := fold_left (mode_step a) (np_unique a) (0, 0) in
      ([mostfrequent], [counts])
  end.

(** The aggregation of the per-window argmax indices of one recording of
    [total] windows.  The quotient of the count by the window number is kept
    as an exact rational. *)
Definition aggregate (argmaxes : list Z) (total : Z) : outcome (Z * string * Q) :=
  predicted_logit <- py_getitem (fst (stats_mode argmaxes)) 0 ;;
  predicted_label <- py_getitem LABELS predicted_logit ;;
  count <- py_getitem (snd (stats_mode argmaxes)) 0 ;;
  let predicted_probability := (inject_Z count / inject_Z total)%Q in
  Returns (predicted_logit, predicted_label, predicted_probability).

Definition predict_recording (y_predicts : list (list float))
  : outcome (Z * string * Q) :=
  argmaxes <- np_argmax_axis1 y_predicts ;;
  aggregate argmaxes (len y_predicts).

(** ** Further definitions *)

(** *** The normaliser over any float format

    The body of [feature_normalize] with its collaborators as parameters:
    the element type [F] of the array (float32 for the clips that librosa
    loads, float64 for a plain list), numpy's elementwise subtraction and
    division on it, and numpy's reductions [np.mean] and [np.std], whose
    summation order depends on the length and the layout of the array.
    [feature_normalize] above is the instance at binary64 with the
    reductions of a short array. *)

Section NormalizerFormats.

Variable F : Type.
Variables fsub fdiv : F -> F -> F.
Variables mean std : list F -> F.

Definition feature_normalize_with (dataset : list F) : outcome (list F) :=
  let mu := mean dataset in
  let sigma := std dataset in
  Returns (map (fun x => fdiv (fsub x mu) sigma) dataset).

End NormalizerFormats.

(** The reductions of an array of fewer than eight elements, in the IEEE
    format of precision [prec] and exponent bound [emax] (24 and 128 for
    float32, 53 and 1024 for float64). *)
Definition sf_sum (prec emax : Z) (a : list spec_float) : spec_float :=
  fold_left (SFadd prec emax) a (S754_zero false).

Definition sf_mean (prec emax : Z) (a : list spec_float) : spec_float :=
  SFdiv prec emax (sf_sum prec emax a)
        (binary_normalize prec emax (len a) 0 false).

Definition sf_std (prec emax : Z) (a : list spec_float) : spec_float :=
  let mu := sf_mean prec emax a in
  SFsqrt prec emax
    (sf_mean prec emax
       (map (fun x => let d := SFabs (SFsub prec emax x mu) in
                      SFmul prec emax d d) a)).

(** A float that is nan or an infinity. *)
Definition not_finite (v : spec_float) : Prop :=
  v = S754_nan \/ exists s, v = S754_infinity s.

(** *** Definitions for the further properties *)

Section ClipCounts.

Variable os_path_join : string -> string -> string.
Variable librosa_load : string -> list float * Z.

(** The number of feature windows that the clip of one file contributes,
    by the count formula. *)
Definition clip_window_count (base_dir : string) (frames : Z) (path : string)
  : nat :=
  Z.to_nat (spec_window_count
              (len (fst (librosa_load (os_path_join base_dir path))))
              (512 * (frames - 1))).

End ClipCounts.

(** The strict order of the column names. *)
Definition string_lt (a b : string) : Prop := String.compare a b = Lt.

(** The argmax of a row known to be non-empty. *)
Definition argmax_of (row : list float) : Z :=
  match np_argmax row with
  | Returns i => i
  | Raises _ => 0
  end.

(** The one-hot row of class [k] among [classes], over the reals. *)
Definition onehot_real (classes k : nat) : list R :=
  map (fun j => if Nat.eqb j k then 1%R else 0%R) (seq 0 classes).

(** * Properties *)

(** ** Rationals at half-integers *)

Lemma Qlt_bool_iff (x y : Q) : Qlt_bool x y = true <-> (x < y)%Q.
Proof.
  unfold Qlt_bool. rewrite negb_true_iff.
  split; intro H.
  - apply Qnot_le_lt. intro Hle. apply Qle_bool_iff in Hle. congruence.
  - destruct (Qle_bool y x) eqn:E; [|reflexivity].
    apply Qle_bool_iff in E. exfalso. exact (Qlt_not_le _ _ H E).
Qed.

Lemma Qlt_bool_half (m n : Z) (start : Q) :
  (start == m # 2)%Q -> Qlt_bool start (inject_Z n) = (m <? 2 * n).
Proof.
  intro H. destruct (m <? 2 * n) eqn:E.
  - apply Qlt_bool_iff. rewrite H. unfold Qlt, inject_Z; simpl. lia.
  - destruct (Qlt_bool start (inject_Z n)) eqn:E'; [|reflexivity].
    apply Qlt_bool_iff in E'. rewrite H in E'. unfold Qlt, inject_Z in E'; simpl in E'. lia.
Qed.

Lemma py_int_half (m : Z) (x : Q) : 0 <= m -> (x == m # 2)%Q -> py_int x = m / 2.
Proof.
  intros Hm H. unfold py_int.
  assert (Hle : Qle_bool 0 x = true).
  { apply Qle_bool_iff. rewrite H. unfold Qle; simpl. lia. }
  rewrite Hle, H. reflexivity.
Qed.

Lemma half_step (m w : Z) (start : Q) :
  (start == m # 2)%Q -> (start + inject_Z w / 2 == (m + w) # 2)%Q.
Proof.
  intro H. rewrite H. unfold Qeq, Qdiv, Qmult, Qplus, Qinv, inject_Z; simpl. lia.
Qed.

Lemma half_plus (m w : Z) (start : Q) :
  (start == m # 2)%Q -> (start + inject_Z w == (m + 2 * w) # 2)%Q.
Proof.
  intro H. rewrite H. unfold Qeq, Qplus, inject_Z; cbn [Qnum Qden]; lia.
Qed.

Lemma windows_next_half {A} (data : list A) (w m : Z) (start : Q) :
  0 <= m -> 0 <= w -> (start == m # 2)%Q ->
  windows_next data w start =
  if m <? 2 * len data
  then Some ((m / 2, m / 2 + w), (start + inject_Z w / 2)%Q)
  else None.
Proof.
  intros Hm Hw H. unfold windows_next.
  rewrite (Qlt_bool_half m (len data) start H).
  destruct (m <? 2 * len data); [|reflexivity].
  rewrite (py_int_half m start Hm H).
  rewrite (py_int_half (m + 2 * w) _ ltac:(lia) (half_plus m w start H)).
  replace ((m + 2 * w) / 2) with (m / 2 + w); [reflexivity|].
  rewrite (Z.mul_comm 2 w), Z.div_add by lia. reflexivity.
Qed.

Lemma steps_left_done L w m : 0 < w -> 2 * L <= m -> steps_left L w m = O.
Proof.
  intros Hw Hm. unfold steps_left.
  assert ((2 * L - m + w - 1) / w <= 0); [|lia].
  assert ((2 * L - m + w - 1) / w < 1); [|lia].
  apply Z.div_lt_upper_bound; lia.
Qed.

Lemma steps_left_step L w m :
  0 < w -> m < 2 * L -> steps_left L w m = S (steps_left L w (m + w)).
Proof.
  intros Hw Hm. unfold steps_left.
  replace (2 * L - m + w - 1) with ((2 * L - (m + w) + w - 1) + 1 * w) by lia.
  rewrite Z.div_add by lia.
  assert (0 <= (2 * L - (m + w) + w - 1) / w) by (apply Z.div_pos; lia).
  lia.
Qed.

Lemma steps_left_bound L w m :
  0 < w -> 0 <= m -> 0 <= L -> (steps_left L w m <= Z.to_nat (2 * L))%nat.
Proof.
  intros Hw Hm HL. unfold steps_left.
  assert ((2 * L - m + w - 1) / w <= 2 * L); [|lia].
  destruct (Z.le_gt_cases (2 * L) m).
  - assert ((2 * L - m + w - 1) / w < 1) by (apply Z.div_lt_upper_bound; lia). lia.
  - apply Z.lt_succ_r. apply Z.div_lt_upper_bound; nia.
Qed.

Lemma windows_drain_half {A} (data : list A) (w : Z) :
  0 < w ->
  forall fuel m start,
    0 <= m -> (start == m # 2)%Q ->
    (steps_left (len data) w m < fuel)%nat ->
    windows_drain fuel data w start = Some (half_pairs (steps_left (len data) w m) m w).
Proof.
  intros Hw. induction fuel as [|fuel IH]; intros m start Hm Hs Hf; [lia|].
  cbn [windows_drain].
  rewrite (windows_next_half data w m start Hm ltac:(lia) Hs).
  destruct (m <? 2 * len data) eqn:E.
  - apply Z.ltb_lt in E.
    rewrite (steps_left_step _ _ _ Hw E) in *.
    rewrite (IH (m + w) _ ltac:(lia) (half_step m w start Hs) ltac:(lia)).
    reflexivity.
  - apply Z.ltb_ge in E. rewrite (steps_left_done _ _ _ Hw E). reflexivity.
Qed.

Lemma len_nonneg {A} (l : list A) : 0 <= len l.
Proof. unfold len. lia. Qed.

Lemma len_py_slice {A} (l : list A) (i j : Z) :
  0 <= i -> 0 <= j ->
  len (py_slice l i j) = Z.max 0 (Z.min j (len l) - Z.min i (len l)).
Proof.
  intros Hi Hj. unfold py_slice, py_clamp.
  destruct (i <? 0) eqn:Ei; [apply Z.ltb_lt in Ei; lia|].
  destruct (j <? 0) eqn:Ej; [apply Z.ltb_lt in Ej; lia|].
  unfold len. rewrite length_firstn, length_skipn.
  pose proof (len_nonneg l) as Hl. unfold len in *. lia.
Qed.

Lemma full_length_window {A} (data : list A) (w s : Z) :
  0 < w -> 0 <= s ->
  full_length data w (s, s + w) = (s + w <=? len data).
Proof.
  intros Hw Hs. unfold full_length. cbn [fst snd].
  rewrite len_py_slice by lia.
  pose proof (len_nonneg data).
  destruct (s + w <=? len data) eqn:E.
  - apply Z.leb_le in E. apply Z.eqb_eq. lia.
  - apply Z.leb_gt in E. apply Z.eqb_neq. lia.
Qed.

Lemma count_even {A} (data : list A) (h : Z) :
  0 < h ->
  forall n a, 0 <= a -> n = steps_left (len data) (2 * h) (2 * a) ->
    len (filter (full_length data (2 * h)) (half_pairs n (2 * a) (2 * h)))
    = Z.max 0 ((len data - a - h) / h).
Proof.
  intros Hh. induction n as [|n IH]; intros a Ha Hn.
  - cbn. destruct (Z.lt_ge_cases (2 * a) (2 * len data)) as [Hlt|Hge].
    + rewrite (steps_left_step (len data) (2 * h) (2 * a) ltac:(lia) Hlt) in Hn. discriminate.
    + assert ((len data - a - h) / h < 0); [|lia].
      apply Z.div_lt_upper_bound; lia.
  - destruct (Z.lt_ge_cases (2 * a) (2 * len data)) as [Hlt|Hge].
    2:{ rewrite (steps_left_done (len data) (2 * h) (2 * a) ltac:(lia) Hge) in Hn. discriminate. }
    rewrite (steps_left_step (len data) (2 * h) (2 * a) ltac:(lia) Hlt) in Hn.
    apply Nat.succ_inj in Hn.
    cbn [half_pairs filter].
    replace (2 * a / 2) with a by (rewrite Z.mul_comm, Z.div_mul; lia).
    rewrite full_length_window by lia.
    replace (2 * a + 2 * h) with (2 * (a + h)) in * by lia.
    specialize (IH (a + h) ltac:(lia) Hn).
    replace (len data - (a + h) - h) with (len data - a - 2 * h) in IH by lia.
    destruct (a + 2 * h <=? len data) eqn:E.
    + apply Z.leb_le in E.
      change (len (?x :: ?l)) with (Z.of_nat (S (List.length l))).
      rewrite Nat2Z.inj_succ. fold (len (filter (full_length data (2 * h))
        (half_pairs n (2 * (a + h)) (2 * h)))). rewrite IH.
      replace (len data - a - h) with ((len data - a - 2 * h) + 1 * h) by lia.
      rewrite Z.div_add by lia.
      assert (0 <= (len data - a - 2 * h) / h) by (apply Z.div_pos; lia). lia.
    + apply Z.leb_gt in E. rewrite IH.
      assert ((len data - a - 2 * h) / h < 0) by (apply Z.div_lt_upper_bound; lia).
      assert ((len data - a - h) / h < 1) by (apply Z.div_lt_upper_bound; lia).
      lia.
Qed.

Lemma Qfloor_half_stride (a h : Z) :
  0 < h -> Qfloor (inject_Z a / (inject_Z (2 * h) / 2)) = a / h.
Proof.
  intro Hh.
  assert (E : (inject_Z a / (inject_Z (2 * h) / 2) == a # (Z.to_pos h))%Q).
  { unfold Qeq, Qdiv, Qmult, Qinv, inject_Z. cbn [Qnum Qden].
    destruct h as [|p|p]; try lia. cbn. lia. }
  rewrite E. unfold Qfloor. rewrite Z2Pos.id by lia. reflexivity.
Qed.

(** ** Window generator *)

Lemma windows_closed_form {A} (data : list A) (w : Z) (fuel : nat) :
  0 < w -> (2 * List.length data < fuel)%nat ->
  windows fuel data w = Some (half_pairs (steps_left (len data) w 0) 0 w).
Proof.
  intros Hw Hf. unfold windows, windows_init.
  apply windows_drain_half; try lia.
  - reflexivity.
  - pose proof (steps_left_bound (len data) w 0 Hw ltac:(lia) (len_nonneg data)) as Hb.
    unfold len in *. lia.
Qed.

Lemma windows_drain_inv {A} (data : list A) (w : Z) :
  0 < w ->
  forall fuel m start ps,
    0 <= m -> (start == m # 2)%Q ->
    windows_drain fuel data w start = Some ps ->
    ps = half_pairs (steps_left (len data) w m) m w.
Proof.
  intros Hw. induction fuel as [|fuel IH]; intros m start ps Hm Hs Hd; [discriminate|].
  cbn [windows_drain] in Hd.
  rewrite (windows_next_half data w m start Hm ltac:(lia) Hs) in Hd.
  destruct (m <? 2 * len data) eqn:E.
  - apply Z.ltb_lt in E.
    rewrite (steps_left_step _ _ _ Hw E).
    destruct (windows_drain fuel data w (start + inject_Z w / 2)) as [ps'|] eqn:Ed;
      [|discriminate].
    injection Hd as <-.
    rewrite (IH (m + w) _ ps' ltac:(lia) (half_step m w start Hs) Ed).
    reflexivity.
  - apply Z.ltb_ge in E. rewrite (steps_left_done _ _ _ Hw E).
    injection Hd as <-. reflexivity.
Qed.

Lemma length_half_pairs (n : nat) (m w : Z) : List.length (half_pairs n m w) = n.
Proof. revert m. induction n as [|n IH]; intro m; cbn; [reflexivity|now rewrite IH]. Qed.

Lemma nth_half_pairs (w : Z) (n : nat) :
  forall (m : Z) (k : nat), (k < n)%nat ->
    nth k (half_pairs n m w) (0, 0)
    = ((m + Z.of_nat k * w) / 2, (m + Z.of_nat k * w) / 2 + w).
Proof.
  induction n as [|n IH]; intros m k Hk; [lia|].
  destruct k as [|k]; cbn [half_pairs nth].
  - replace (m + Z.of_nat 0 * w) with m by lia. reflexivity.
  - rewrite IH by lia.
    replace (m + w + Z.of_nat k * w) with (m + Z.of_nat (S k) * w) by lia.
    reflexivity.
Qed.

Lemma In_half_pairs (w : Z) (n : nat) :
  forall (m s e : Z), 0 <= m -> 0 <= w ->
    In (s, e) (half_pairs n m w) -> 0 <= s /\ e = s + w.
Proof.
  induction n as [|n IH]; intros m s e Hm Hw Hin; [contradiction|].
  cbn [half_pairs] in Hin. destruct Hin as [Heq|Hin].
  - injection Heq as <- <-. split; [apply Z.div_pos; lia|reflexivity].
  - apply (IH (m + w)); auto; lia.
Qed.

Lemma steps_left_spec (L w : Z) (k : nat) :
  0 < w -> 0 <= L ->
  ((k < steps_left L w 0)%nat <-> Z.of_nat k * w < 2 * L).
Proof.
  intros Hw HL. unfold steps_left.
  replace (2 * L - 0 + w - 1) with (2 * L + w - 1) by lia.
  assert (Hq : 0 <= (2 * L + w - 1) / w) by (apply Z.div_pos; lia).
  pose proof (Z.div_mod (2 * L + w - 1) w ltac:(lia)) as Hdm.
  pose proof (Z.mod_pos_bound (2 * L + w - 1) w Hw) as Hr.
  split; intro H.
  - assert (Z.of_nat k + 1 <= (2 * L + w - 1) / w) by lia. nia.
  - assert (Z.of_nat k < (2 * L + w - 1) / w); [|lia]. nia.
Qed.

(** C8 (as amended).  For every sequence and every window size greater than
    zero the generator is finite: there is a number [n], at most twice the
    length of the sequence, such that draining stops after exactly [n]
    yielded pairs whatever fuel above [n] is supplied.  The [k]-th pair is
    [(floor(k * window_size / 2), floor(k * window_size / 2) + window_size)];
    every yielded pair has its start value [k * window_size / 2] below the
    length [L], and generation has stopped at the first [n] with
    [n * window_size / 2 >= L] (both comparisons are written doubled). *)
Theorem windows_finite {A} (data : list A) (window_size : Z) :
  0 < window_size ->
  exists (n : nat) (ps : list (Z * Z)),
    (forall fuel, (n < fuel)%nat -> windows fuel data window_size = Some ps) /\
    List.length ps = n /\
    (n <= 2 * List.length data)%nat /\
    (forall k, (k < n)%nat ->
       Z.of_nat k * window_size < 2 * len data /\
       nth k ps (0, 0) = (Z.of_nat k * window_size / 2,
                          Z.of_nat k * window_size / 2 + window_size)) /\
    2 * len data <= Z.of_nat n * window_size.
Proof.
  intro Hw.
  exists (steps_left (len data) window_size 0).
  exists (half_pairs (steps_left (len data) window_size 0) 0 window_size).
  pose proof (len_nonneg data) as HL.
  split; [|split; [|split; [|split]]].
  - intros fuel Hf. unfold windows, windows_init.
    apply windows_drain_half; try lia. reflexivity.
  - apply length_half_pairs.
  - pose proof (steps_left_bound (len data) window_size 0 Hw ltac:(lia) HL) as Hb.
    unfold len in *. lia.
  - intros k Hk. split.
    + apply steps_left_spec; assumption.
    + rewrite nth_half_pairs by assumption. reflexivity.
  - destruct (Z.lt_ge_cases
                (Z.of_nat (steps_left (len data) window_size 0) * window_size)
                (2 * len data)) as [Hlt|Hge]; [|assumption].
    apply steps_left_spec in Hlt; try assumption. lia.
Qed.

Lemma windows_finite_witness :
  exists (n : nat) (ps : list (Z * Z)),
    (forall fuel, (n < fuel)%nat -> windows fuel [1; 2; 3; 4; 5] 2 = Some ps) /\
    List.length ps = n /\
    (n <= 2 * List.length [1; 2; 3; 4; 5])%nat /\
    (forall k, (k < n)%nat ->
       Z.of_nat k * 2 < 2 * len [1; 2; 3; 4; 5] /\
       nth k ps (0, 0) = (Z.of_nat k * 2 / 2, Z.of_nat k * 2 / 2 + 2)) /\
    2 * len [1; 2; 3; 4; 5] <= Z.of_nat n * 2.
Proof. apply (windows_finite [1; 2; 3; 4; 5] 2). reflexivity. Defined.

(** C8 (as stated) fails: on a one-element sequence with window size 0 the
    generator yields [(0, 0)] for ever, so no amount of fuel drains it. *)
Lemma windows_zero_size_never_stops :
  ~ exists (fuel : nat) (ps : list (Z * Z)), windows fuel [tt] 0 = Some ps.
Proof.
  intros [fuel [ps H]]. unfold windows, windows_init in H.
  assert (Hall : forall fuel start, (start == 0 # 2)%Q ->
                   windows_drain fuel [tt] 0 start = None).
  { clear. induction fuel as [|fuel IH]; intros start Hs; [reflexivity|].
    cbn [windows_drain].
    rewrite (windows_next_half [tt] 0 0 start ltac:(lia) ltac:(lia) Hs).
    cbn [len List.length Z.of_nat Z.mul Z.ltb Z.compare Pos.of_succ_nat].
    rewrite (IH _ (half_step 0 0 start Hs)). reflexivity. }
  rewrite Hall in H by reflexivity. discriminate.
Qed.

(** C10.  For every non-empty sequence and every window size greater than
    zero, the first resumption of the generator yields [(0, window_size)],
    whether or not the window size exceeds the length, so every drained run
    starts with that pair.  The generator does not compare [end] with the
    length: when the window size exceeds the length the yielded end lies
    past the end of the sequence and the pair is rejected by the caller's
    test only; in general the caller's test keeps a yielded pair exactly
    when its end is within the sequence. *)
Theorem windows_first_pair {A} (data : list A) (window_size : Z) :
  data <> [] -> 0 < window_size ->
  (exists gen', windows_next data window_size windows_init
                = Some ((0, window_size), gen')) /\
  (forall fuel ps, windows fuel data window_size = Some ps ->
     exists rest, ps = (0, window_size) :: rest) /\
  (len data < window_size ->
     len data < snd (0, window_size) /\
     full_length data window_size (0, window_size) = false) /\
  (forall fuel ps s e, windows fuel data window_size = Some ps ->
     In (s, e) ps -> full_length data window_size (s, e) = (e <=? len data)).
Proof.
  intros Hne Hw.
  assert (HL : 0 < len data).
  { destruct data; [contradiction|]. unfold len. cbn [List.length]. lia. }
  assert (Hnext : windows_next data window_size windows_init
                  = Some ((0, window_size),
                          (windows_init + inject_Z window_size / 2)%Q)).
  { rewrite (windows_next_half data window_size 0 windows_init); try lia.
    - destruct (0 <? 2 * len data) eqn:E; [reflexivity|].
      apply Z.ltb_ge in E. lia.
    - reflexivity. }
  split; [|split; [|split]].
  - eexists. exact Hnext.
  - intros fuel ps H. unfold windows in H.
    destruct fuel as [|fuel]; [discriminate|].
    cbn [windows_drain] in H. rewrite Hnext in H.
    destruct (windows_drain fuel data window_size _) as [rest|]; [|discriminate].
    injection H as <-. now exists rest.
  - intro Hlt. split; [exact Hlt|].
    change (0, window_size) with (0, 0 + window_size).
    rewrite full_length_window by lia.
    apply Z.leb_gt. lia.
  - intros fuel ps s e H Hin. unfold windows, windows_init in H.
    apply (windows_drain_inv data window_size Hw fuel 0) in H; [|lia|reflexivity].
    subst ps. apply In_half_pairs in Hin; try lia.
    destruct Hin as [Hs ->]. apply full_length_window; lia.
Qed.

Lemma windows_first_pair_witness :
  (exists gen', windows_next [1; 2] 5 windows_init = Some ((0, 5), gen')) /\
  (forall fuel ps, windows fuel [1; 2] 5 = Some ps ->
     exists rest, ps = (0, 5) :: rest) /\
  (len [1; 2] < 5 ->
     len [1; 2] < snd (0, 5) /\ full_length [1; 2] 5 (0, 5) = false) /\
  (forall fuel ps s e, windows fuel [1; 2] 5 = Some ps ->
     In (s, e) ps -> full_length [1; 2] 5 (s, e) = (e <=? len [1; 2])).
Proof. apply (windows_first_pair [1; 2] 5); [discriminate|reflexivity]. Defined.

(** C3 (as amended).  For every sequence of length [L] and every even window
    size greater than zero -- the feature extractor only ever passes
    [512 * (frames - 1)] -- the number of yielded pairs that pass the
    caller's full-length test is [floor((L - window_size) / (window_size/2)) + 1]
    when [L >= window_size] and zero when [L < window_size]. *)
Theorem surviving_window_count {A} (data : list A) (window_size : Z) (fuel : nat) :
  0 < window_size -> Z.even window_size = true ->
  (2 * List.length data < fuel)%nat ->
  exists ps, surviving_windows fuel data window_size = Some ps /\
             len ps = spec_window_count (len data) window_size.
Proof.
  intros Hw Hev Hf.
  apply Z.even_spec in Hev. destruct Hev as [h ->].
  assert (Hh : 0 < h) by lia.
  unfold surviving_windows. rewrite windows_closed_form by assumption.
  eexists. split; [reflexivity|].
  pose proof (count_even data h Hh _ 0 ltac:(lia) eq_refl) as Hc.
  change (2 * 0) with 0 in Hc. rewrite Hc.
  replace (len data - 0 - h) with (len data - h) by lia.
  unfold spec_window_count.
  destruct (len data <? 2 * h) eqn:E.
  - apply Z.ltb_lt in E.
    assert ((len data - h) / h < 1) by (apply Z.div_lt_upper_bound; lia). lia.
  - apply Z.ltb_ge in E. rewrite Qfloor_half_stride by assumption.
    replace (len data - h) with ((len data - 2 * h) + 1 * h) by lia.
    rewrite Z.div_add by lia.
    assert (0 <= (len data - 2 * h) / h) by (apply Z.div_pos; lia). lia.
Qed.

Lemma surviving_window_count_witness :
  exists ps, surviving_windows 15 [1; 2; 3; 4; 5; 6; 7] 4 = Some ps /\
             len ps = spec_window_count (len [1; 2; 3; 4; 5; 6; 7]) 4.
Proof.
  apply (surviving_window_count [1; 2; 3; 4; 5; 6; 7] 4 15).
  - reflexivity.
  - reflexivity.
  - cbn. lia.
Defined.

(** C3 (as stated) fails for an odd window size: with [L = 7] and
    [window_size = 3] the generator's starts are 0, 1.5, 3, 4.5, 6, truncated
    to 0, 1, 3, 4, 6, and four windows pass the caller's test, while the
    formula gives 3 (and 5 with the half window size read as an integer
    quotient). *)
Lemma surviving_window_count_odd_size :
  surviving_windows 15 [1; 2; 3; 4; 5; 6; 7] 3
  = Some [(0, 3); (1, 4); (3, 6); (4, 7)] /\
  spec_window_count (len [1; 2; 3; 4; 5; 6; 7]) 3 = 3 /\
  spec_window_count_int (len [1; 2; 3; 4; 5; 6; 7]) 3 = 5 /\
  len [(0, 3); (1, 4); (3, 6); (4, 7)]
  <> spec_window_count (len [1; 2; 3; 4; 5; 6; 7]) 3.
Proof.
  split; [vm_compute; reflexivity|].
  split; [vm_compute; reflexivity|].
  split; [vm_compute; reflexivity|].
  vm_compute. discriminate.
Qed.

(** ** Feature extractor *)


Lemma feature_normalize_length (dataset out : list float) :
  feature_normalize dataset = Returns out -> List.length out = List.length dataset.
Proof. unfold feature_normalize. intro H. injection H as <-. apply length_map. Qed.


Lemma py_getitem_in_range {A} (l : list A) (i : Z) :
  0 <= i < len l -> exists a, py_getitem l i = Returns a.
Proof.
  intros [Hi Hl]. unfold py_getitem.
  destruct (i <? 0) eqn:E; [apply Z.ltb_lt in E; lia|]. rewrite E. cbn [orb].
  destruct (len l <=? i) eqn:E'; [apply Z.leb_le in E'; lia|].
  destruct (nth_error l (Z.to_nat i)) as [a|] eqn:En; [now exists a|].
  apply nth_error_None in En. unfold len in Hl. lia.
Qed.

Section ExtractorProperties.

Variable os_path_join : string -> string -> string.
Variable librosa_load : string -> list float * Z.
Variable librosa_mfcc : list float -> Z -> Z -> ndarray2.

(** librosa's contract: [n_mfcc] rows and one column per hop of 512
    samples, plus one. *)
Hypothesis mfcc_shape : forall (y : list float) (sr n_mfcc : Z),
  shape (librosa_mfcc y sr n_mfcc) = (n_mfcc, 1 + len y / hop_length).




Lemma clip_loop_drain (clip : list float) (s bands w : Z) (label : string) :
  forall fuel gen mfccs labels ps,
    windows_drain fuel clip w gen = Some ps ->
    clip_loop librosa_mfcc fuel clip s label w bands gen mfccs labels
    = Some (mfccs ++ map (window_feature librosa_mfcc clip s bands)
                         (filter (full_length clip w) ps),
            labels ++ map (fun _ => label) (filter (full_length clip w) ps)).
Proof.
  induction fuel as [|fuel IH]; intros gen mfccs labels ps H; [discriminate|].
  cbn [windows_drain clip_loop] in *.
  destruct (windows_next clip w gen) as [[[st en] gen']|].
  - destruct (windows_drain fuel clip w gen') as [ps'|] eqn:Ed; [|discriminate].
    injection H as <-. cbn [filter].
    change (len (py_slice clip st en) =? w) with (full_length clip w (st, en)).
    destruct (full_length clip w (st, en)).
    + rewrite (IH gen' _ _ ps' Ed). cbn [map].
      rewrite <- !app_assoc. reflexivity.
    + apply (IH gen' _ _ ps' Ed).
  - injection H as <-. cbn. now rewrite !app_nil_r.
Qed.




End ExtractorProperties.


(** ** Signal normaliser *)

Lemma feature_normalize_instance (dataset : list float) :
  feature_normalize dataset
  = feature_normalize_with float PrimFloat.sub PrimFloat.div np_mean np_std
                           dataset.
Proof. reflexivity. Qed.

Lemma SFdiv_by_zero (prec emax : Z) (x : spec_float) (s : bool) :
  not_finite (SFdiv prec emax x (S754_zero s)).
Proof.
  destruct x as [sx|sx| |sx mx ex]; cbn [SFdiv].
  - left. reflexivity.
  - right. eexists. reflexivity.
  - left. reflexivity.
  - right. eexists. reflexivity.
Qed.

(** C5 (as amended).  In every float format and whatever order numpy sums
    in, for every sample sequence whose computed standard deviation is zero
    the normaliser raises nothing: it returns a sequence of the input's
    length, and every element of it, the IEEE quotient of [x - mean] by
    zero, is nan or an infinity. *)
Theorem feature_normalize_zero_std_not_finite (prec emax : Z)
  (mean std : list spec_float -> spec_float) (dataset : list spec_float)
  (s : bool) :
  std dataset = S754_zero s ->
  exists out,
    feature_normalize_with spec_float (SFsub prec emax) (SFdiv prec emax)
                           mean std dataset = Returns out /\
    List.length out = List.length dataset /\
    Forall not_finite out.
Proof.
  intro Hs. unfold feature_normalize_with. rewrite Hs.
  eexists. split; [reflexivity|]. split; [apply length_map|].
  apply Forall_map. apply Forall_forall. intros x _.
  apply SFdiv_by_zero.
Qed.

Lemma feature_normalize_zero_std_not_finite_witness :
  let one := SFone 24 128 in
  exists out,
    feature_normalize_with spec_float (SFsub 24 128) (SFdiv 24 128)
                           (sf_mean 24 128) (sf_std 24 128)
                           [one; one; one; one] = Returns out /\
    List.length out = List.length [one; one; one; one] /\
    Forall not_finite out.
Proof.
  intro one.
  apply (feature_normalize_zero_std_not_finite 24 128 (sf_mean 24 128)
           (sf_std 24 128) [one; one; one; one] false).
  vm_compute. reflexivity.
Defined.

(** C5 (as stated) fails: the sequence [1.0, 1.0, 1.0] has standard
    deviation zero and the normaliser returns [nan, nan, nan] for it, as a
    float64 array and as a float32 array alike. *)
Lemma feature_normalize_constant_returns :
  np_std [1; 1; 1]%float = 0%float /\
  feature_normalize [1; 1; 1]%float = Returns [nan; nan; nan] /\
  feature_normalize [1; 1; 1]%float <> Raises DegenerateSignalError /\
  sf_std 24 128 [SFone 24 128; SFone 24 128; SFone 24 128] = S754_zero false /\
  feature_normalize_with spec_float (SFsub 24 128) (SFdiv 24 128)
                         (sf_mean 24 128) (sf_std 24 128)
                         [SFone 24 128; SFone 24 128; SFone 24 128]
  = Returns [S754_nan; S754_nan; S754_nan].
Proof.
  split; [vm_compute; reflexivity|].
  split; [vm_compute; reflexivity|].
  split; [vm_compute; discriminate|].
  split; vm_compute; reflexivity.
Qed.

(** ** Label encoding *)

Lemma columns_of_motor_labels (labels : list string) :
  Forall (fun l => In l LABELS) labels ->
  get_dummies_columns labels
  = filter (fun c => present c labels) ["new"; "red"; "used"]%string.
Proof.
  induction labels as [|x labels IH]; intro H; [reflexivity|].
  inversion H as [|? ? Hx Hrest]; subst.
  cbn [get_dummies_columns fold_right].
  fold (get_dummies_columns labels). rewrite (IH Hrest).
  unfold present. cbn [existsb filter].
  destruct Hx as [<-|[<-|[<-|[]]]];
    destruct (existsb (String.eqb "new") labels),
             (existsb (String.eqb "red") labels),
             (existsb (String.eqb "used") labels); reflexivity.
Qed.

Lemma present_In (c : string) (labels : list string) :
  In c labels -> present c labels = true.
Proof.
  intro H. unfold present. apply existsb_exists.
  exists c. split; [exact H|apply String.eqb_refl].
Qed.

(** C1 (the code departs from it).  For every corpus whose labels are drawn
    from new, used, red and in which the three occur, the one-hot encoding
    puts the classes in the columns new, red, used, while the label list of
    the inference cell is new, used, red: the indices of used and red are
    exchanged between training and inference.  A window labelled used is
    encoded as [0, 0, 1], class index 2, and the inference cell names class
    index 2 red. *)
Theorem label_index_mismatch (labels : list string) :
  Forall (fun l => In l LABELS) labels ->
  In "new"%string labels -> In "used"%string labels -> In "red"%string labels ->
  get_dummies_columns labels = ["new"; "red"; "used"]%string /\
  training_class_index labels "new" = Some 0 /\
  inference_class_index "new" = Some 0 /\
  training_class_index labels "used" = Some 2 /\
  inference_class_index "used" = Some 1 /\
  training_class_index labels "red" = Some 1 /\
  inference_class_index "red" = Some 2 /\
  one_hot_row (get_dummies_columns labels) "used" = [0; 0; 1]%float /\
  np_argmax (one_hot_row (get_dummies_columns labels) "used") = Returns 2 /\
  py_getitem LABELS 2 = Returns "red"%string.
Proof.
  intros H Hn Hu Hr.
  assert (Hc : get_dummies_columns labels = ["new"; "red"; "used"]%string).
  { rewrite (columns_of_motor_labels labels H). cbn [filter].
    rewrite !present_In by assumption. reflexivity. }
  unfold training_class_index. rewrite Hc. repeat split; reflexivity.
Qed.

Lemma label_index_mismatch_witness :
  get_dummies_columns sound_names = ["new"; "red"; "used"]%string /\
  training_class_index sound_names "new" = Some 0 /\
  inference_class_index "new" = Some 0 /\
  training_class_index sound_names "used" = Some 2 /\
  inference_class_index "used" = Some 1 /\
  training_class_index sound_names "red" = Some 1 /\
  inference_class_index "red" = Some 2 /\
  one_hot_row (get_dummies_columns sound_names) "used" = [0; 0; 1]%float /\
  np_argmax (one_hot_row (get_dummies_columns sound_names) "used") = Returns 2 /\
  py_getitem LABELS 2 = Returns "red"%string.
Proof.
  apply (label_index_mismatch sound_names).
  - unfold sound_names, LABELS. repeat constructor; cbn; tauto.
  - cbn; tauto.
  - cbn; tauto.
  - cbn; tauto.
Defined.

(** ** Trainer *)

Section TrainerProperties.

Variables X Y params : Type.
Variable run_optimizer : params -> list X -> list Y -> params * float.
Variable run_accuracy : params -> list X -> list Y -> float.
Variable run_loss : params -> list X -> list Y -> float.

Lemma train_loop_fed (labels : list Y) (X_train : list X) (y_train : list Y)
  (batch_size display_step : Z) :
  len labels - batch_size <> 0 -> display_step <> 0 ->
  forall itrs st,
    exists st',
      train_loop X Y params run_optimizer run_accuracy run_loss
                 labels X_train y_train batch_size display_step itrs st
      = Returns st' /\
      fed st' = fed st ++ map (batch_of labels X_train y_train batch_size) itrs.
Proof.
  intros Hb Hd. induction itrs as [|itr itrs IH]; intro st.
  - exists st. cbn. now rewrite app_nil_r.
  - cbn [train_loop]. unfold train_iteration, batch_offset, py_mod.
    destruct (len labels - batch_size =? 0) eqn:Eb;
      [apply Z.eqb_eq in Eb; contradiction|].
    destruct (display_step =? 0) eqn:Ed;
      [apply Z.eqb_eq in Ed; contradiction|].
    cbn [bind].
    destruct (run_optimizer _ _ _) as [session' c].
    cbn [bind].
    destruct (itr mod display_step =? 0); cbn [bind].
    + match goal with
      | |- context [train_loop _ _ _ _ _ _ _ _ _ _ _ _ ?s] =>
          destruct (IH s) as [st' [Hrun Hfed]]
      end.
      exists st'. split; [exact Hrun|].
      rewrite Hfed. cbn [fed map]. rewrite <- app_assoc. reflexivity.
    + match goal with
      | |- context [train_loop _ _ _ _ _ _ _ _ _ _ _ _ ?s] =>
          destruct (IH s) as [st' [Hrun Hfed]]
      end.
      exists st'. split; [exact Hrun|].
      rewrite Hfed. cbn [fed map]. rewrite <- app_assoc. reflexivity.
Qed.

(** C9.  In the notebook's configuration (a corpus of 120 examples, a
    training split of 96, batches of 5, 300 iterations) the offset is
    reduced modulo 120 - 5 = 115 and not by the size of the training split:
    at iteration 19 it is 95, beyond 96 - 5, and the batch holds a single
    example; at iteration 20 it is 100 and the batch is empty.  Slicing
    never raises, so the loop feeds these short batches to the gradient
    step and runs its 300 iterations to the end without raising. *)
Theorem short_batches_in_reference_run (labels : list Y) (X_train : list X)
  (y_train : list Y) (session0 : params) :
  len labels = 120 -> len X_train = 96 -> len y_train = 96 ->
  exists st,
    train X Y params run_optimizer run_accuracy run_loss labels X_train y_train
          training_iters batch_size display_step session0 = Returns st /\
    List.length (fed st) = 300%nat /\
    batch_offset labels batch_size 19 = Returns 95 /\
    95 > len X_train - batch_size /\
    (exists batch_x batch_y,
       nth_error (fed st) 19 = Some (19, batch_x, batch_y) /\
       len batch_x = 1 /\ len batch_y = 1 /\ len batch_x < batch_size) /\
    batch_offset labels batch_size 20 = Returns 100 /\
    (exists batch_x batch_y,
       nth_error (fed st) 20 = Some (20, batch_x, batch_y) /\
       batch_x = [] /\ batch_y = []).
Proof.
  intros Hl Hx Hy.
  destruct (train_loop_fed labels X_train y_train batch_size display_step
              ltac:(rewrite Hl; discriminate) ltac:(discriminate)
              (py_range training_iters)
              (mk_train_state X Y params session0 [] []))
    as [st [Hrun Hfed]].
  cbn [fed app] in Hfed.
  exists st. split; [exact Hrun|].
  split; [rewrite Hfed, length_map; reflexivity|].
  split; [unfold batch_offset, py_mod; rewrite Hl; reflexivity|].
  split; [rewrite Hx; reflexivity|].
  split; [|split].
  - eexists. eexists. split; [|split; [|split]].
    + rewrite Hfed, nth_error_map.
      replace (nth_error (py_range training_iters) 19) with (Some 19)
        by reflexivity.
      unfold batch_of. rewrite Hl. reflexivity.
    + rewrite len_py_slice, Hx by (vm_compute; discriminate). reflexivity.
    + rewrite len_py_slice, Hy by (vm_compute; discriminate). reflexivity.
    + rewrite len_py_slice, Hx by (vm_compute; discriminate). reflexivity.
  - unfold batch_offset, py_mod. rewrite Hl. reflexivity.
  - eexists. eexists. split; [|split].
    + rewrite Hfed, nth_error_map.
      replace (nth_error (py_range training_iters) 20) with (Some 20)
        by reflexivity.
      unfold batch_of. rewrite Hl. reflexivity.
    + apply length_zero_iff_nil.
      pose proof (len_py_slice X_train 100 105) as H.
      rewrite Hx in H. unfold len in H.
      specialize (H ltac:(lia) ltac:(lia)).
      change (Z.max 0 (Z.min 105 96 - Z.min 100 96)) with 0 in H.
      change ((120 - batch_size)) with 115.
      change ((20 * batch_size) mod 115) with 100.
      change (100 + batch_size) with 105. lia.
    + apply length_zero_iff_nil.
      pose proof (len_py_slice y_train 100 105) as H.
      rewrite Hy in H. unfold len in H.
      specialize (H ltac:(lia) ltac:(lia)).
      change (Z.max 0 (Z.min 105 96 - Z.min 100 96)) with 0 in H.
      change ((120 - batch_size)) with 115.
      change ((20 * batch_size) mod 115) with 100.
      change (100 + batch_size) with 105. lia.
Qed.

End TrainerProperties.

Lemma short_batches_in_reference_run_witness :
  let step := fun (p : unit) (_ _ : list Z) => (p, 0%float) in
  let eval := fun (_ : unit) (_ _ : list Z) => 0%float in
  exists st,
    train Z Z unit step eval eval (py_range 120) (py_range 96) (py_range 96)
          training_iters batch_size display_step tt = Returns st /\
    List.length (fed st) = 300%nat /\
    batch_offset (py_range 120) batch_size 19 = Returns 95 /\
    95 > len (py_range 96) - batch_size /\
    (exists batch_x batch_y,
       nth_error (fed st) 19 = Some (19, batch_x, batch_y) /\
       len batch_x = 1 /\ len batch_y = 1 /\ len batch_x < batch_size) /\
    batch_offset (py_range 120) batch_size 20 = Returns 100 /\
    (exists batch_x batch_y,
       nth_error (fed st) 20 = Some (20, batch_x, batch_y) /\
       batch_x = [] /\ batch_y = []).
Proof.
  intros step eval.
  apply (short_batches_in_reference_run Z Z unit step eval eval
           (py_range 120) (py_range 96) (py_range 96) tt);
    vm_compute; reflexivity.
Defined.

(** C2 (the code departs from it).  With a corpus of 120 examples, of which
    the training split [0, ..., 95] holds 96, and batches of 5, iteration 19
    computes the offset 95 = (19 * 5) % (120 - 5) and selects the single
    example 95 instead of five consecutive examples of the training split;
    iteration 20 computes the offset 100 and selects no example at all. *)
Theorem batch_overruns_training_split :
  batch_offset (py_range 120) batch_size 19 = Returns 95 /\
  py_slice (py_range 96) 95 (95 + batch_size) = [95] /\
  len (py_slice (py_range 96) 95 (95 + batch_size)) <> batch_size /\
  batch_offset (py_range 120) batch_size 20 = Returns 100 /\
  py_slice (py_range 96) 100 (100 + batch_size) = [].
Proof.
  repeat split; try (vm_compute; reflexivity).
  vm_compute. discriminate.
Qed.

(** ** Loss *)

Lemma fold_right_Rplus_app (a b : list R) :
  fold_right Rplus 0%R (a ++ b)
  = (fold_right Rplus 0 a + fold_right Rplus 0 b)%R.
Proof.
  induction a as [|x a IH]; cbn [app fold_right]; [lra|]. rewrite IH. lra.
Qed.

Lemma sum_upto_shift (n : nat) (f : nat -> R) :
  sum_upto (S n) f = (f O + sum_upto n (fun k => f (S k)))%R.
Proof.
  unfold sum_upto. cbn [seq map fold_right].
  rewrite <- seq_shift, map_map. reflexivity.
Qed.

Lemma row_sum (classes : nat) :
  forall (a b : list R),
    List.length a = classes -> List.length b = classes ->
    fold_right Rplus 0%R (zip_with Rmult a (map ln b))
    = sum_upto classes (fun j => (nth j a 0 * ln (nth j b 0))%R).
Proof.
  induction classes as [|classes IH]; intros a b Ha Hb.
  - destruct a; [|discriminate]. reflexivity.
  - destruct a as [|x a]; [discriminate|]. destruct b as [|y b]; [discriminate|].
    rewrite sum_upto_shift. cbn [map zip_with fold_right nth].
    rewrite (IH a b) by (cbn in *; lia). reflexivity.
Qed.

(** C7.  For every batch of one-hot labels [y] and predictions of the same
    shape [batch x classes], the loss node equals minus the sum, over every
    example and every class of the batch, of [y * log(prediction)]; the sum
    is not divided by the batch size. *)
Theorem loss_is_summed_cross_entropy (batch classes : nat) (y prediction : tensor2) :
  List.length y = batch -> List.length prediction = batch ->
  Forall (fun row => List.length row = classes) y ->
  Forall (fun row => List.length row = classes) prediction ->
  loss_f y prediction = spec_cross_entropy batch classes y prediction.
Proof.
  unfold loss_f, spec_cross_entropy, tf_reduce_sum, tf_mul, tf_log.
  intros Hy Hp Fy Fp. f_equal.
  revert y prediction Hy Hp Fy Fp.
  induction batch as [|batch IH]; intros y p Hy Hp Fy Fp.
  - destruct y; [|discriminate]. reflexivity.
  - destruct y as [|a y]; [discriminate|]. destruct p as [|b p]; [discriminate|].
    inversion Fy as [|? ? Ha Fy']; inversion Fp as [|? ? Hb Fp']; subst.
    rewrite sum_upto_shift.
    cbn [map zip_with List.concat]. rewrite fold_right_Rplus_app.
    rewrite (row_sum (List.length a) a b eq_refl Hb).
    rewrite (IH y p) by (cbn in *; auto; lia).
    unfold entry. cbn [nth]. reflexivity.
Qed.

Lemma loss_is_summed_cross_entropy_witness :
  loss_f [[1; 0; 0]; [0; 1; 0]]%R [[/ 2; / 4; / 4]; [/ 4; / 2; / 4]]%R
  = spec_cross_entropy 2 3 [[1; 0; 0]; [0; 1; 0]]%R
                       [[/ 2; / 4; / 4]; [/ 4; / 2; / 4]]%R.
Proof.
  apply (loss_is_summed_cross_entropy 2 3); repeat constructor.
Defined.

(** ** Inference aggregator *)

Lemma insert_unique_In (v x : Z) (l : list Z) :
  In v (insert_unique x l) <-> v = x \/ In v l.
Proof.
  induction l as [|y l IH]; cbn [insert_unique].
  - cbn. intuition.
  - destruct (x ?= y) eqn:E.
    + apply Z.compare_eq in E. subst. cbn. intuition.
    + cbn. intuition.
    + cbn [In]. rewrite IH. intuition.
Qed.

Lemma np_unique_In (v : Z) (a : list Z) : In v (np_unique a) <-> In v a.
Proof.
  induction a as [|x a IH]; cbn [np_unique fold_right]; [reflexivity|].
  fold (np_unique a). rewrite insert_unique_In, IH. cbn. intuition.
Qed.

Lemma insert_unique_sorted (x : Z) (l : list Z) :
  StronglySorted Z.lt l -> StronglySorted Z.lt (insert_unique x l).
Proof.
  induction l as [|y l IH]; intro H; cbn [insert_unique].
  - repeat constructor.
  - apply StronglySorted_inv in H. destruct H as [Hs Hf].
    destruct (x ?= y) eqn:E.
    + constructor; assumption.
    + rewrite Z.compare_lt_iff in E. constructor; [constructor; assumption|].
      constructor; [exact E|].
      apply Forall_forall. intros z Hz.
      rewrite Forall_forall in Hf. specialize (Hf z Hz). lia.
    + rewrite Z.compare_gt_iff in E. constructor; [apply IH; exact Hs|].
      apply Forall_forall. intros z Hz. apply insert_unique_In in Hz.
      destruct Hz as [->|Hz]; [exact E|].
      rewrite Forall_forall in Hf. apply Hf. exact Hz.
Qed.

Lemma np_unique_sorted (a : list Z) : StronglySorted Z.lt (np_unique a).
Proof.
  induction a as [|x a IH]; cbn [np_unique fold_right]; [constructor|].
  apply insert_unique_sorted. exact IH.
Qed.

Lemma count_equal_nonneg (v : Z) (a : list Z) : 0 <= count_equal v a.
Proof. unfold count_equal. apply len_nonneg. Qed.

Lemma count_equal_le_len (v : Z) (a : list Z) : count_equal v a <= len a.
Proof.
  unfold count_equal, len. apply inj_le. apply filter_length_le.
Qed.

Lemma count_equal_pos (v : Z) (a : list Z) : 0 < count_equal v a <-> In v a.
Proof.
  unfold count_equal, len. split; intro H.
  - destruct (filter (Z.eqb v) a) as [|x l] eqn:E; [cbn in H; lia|].
    assert (Hx : In x (filter (Z.eqb v) a)) by (rewrite E; now left).
    apply filter_In in Hx. destruct Hx as [Hx Hv].
    apply Z.eqb_eq in Hv. now subst.
  - assert (Hx : In v (filter (Z.eqb v) a)).
    { apply filter_In. split; [exact H|apply Z.eqb_refl]. }
    destruct (filter (Z.eqb v) a); [contradiction|]. cbn. lia.
Qed.

Lemma mode_fold_inv (a : list Z) :
  forall scores done mf oc,
    StronglySorted Z.lt scores ->
    (forall x y, In x done -> In y scores -> x < y) ->
    0 <= oc ->
    (forall v, In v done -> count_equal v a <= oc) ->
    (oc = 0 \/
     (In mf done /\ count_equal mf a = oc /\
      forall v, In v done -> count_equal v a = oc -> mf <= v)) ->
    forall mf' oc', fold_left (mode_step a) scores (mf, oc) = (mf', oc') ->
      0 <= oc' /\
      (forall v, In v (done ++ scores) -> count_equal v a <= oc') /\
      (oc' = 0 \/
       (In mf' (done ++ scores) /\ count_equal mf' a = oc' /\
        forall v, In v (done ++ scores) -> count_equal v a = oc' -> mf' <= v)).
Proof.
  induction scores as [|s rest IH]; intros done mf oc Hs Hlt Hoc Hle Hmode mf' oc' Hf.
  - cbn in Hf. injection Hf as <- <-. rewrite app_nil_r. auto.
  - cbn [fold_left mode_step] in Hf.
    apply StronglySorted_inv in Hs. destruct Hs as [Hs Hall].
    rewrite Forall_forall in Hall.
    replace (done ++ s :: rest) with ((done ++ [s]) ++ rest)
      by (rewrite <- app_assoc; reflexivity).
    apply (IH (done ++ [s]) _ _ Hs) in Hf; [exact Hf| | | |].
    + intros x y Hx Hy. apply in_app_or in Hx. destruct Hx as [Hx|[<-|[]]].
      * apply Hlt; [exact Hx|now right].
      * apply Hall. exact Hy.
    + lia.
    + intros v Hv. apply in_app_or in Hv. destruct Hv as [Hv|[<-|[]]].
      * specialize (Hle v Hv). lia.
      * lia.
    + destruct (oc <? count_equal s a) eqn:E.
      * apply Z.ltb_lt in E. right. split; [|split].
        -- apply in_or_app. right. now left.
        -- lia.
        -- intros v Hv Hc. apply in_app_or in Hv. destruct Hv as [Hv|[<-|[]]].
           ++ specialize (Hle v Hv). lia.
           ++ lia.
      * apply Z.ltb_ge in E. destruct Hmode as [->|[Hin [Hc Hmin]]].
        -- left. pose proof (count_equal_nonneg s a). lia.
        -- right. split; [|split].
           ++ apply in_or_app. now left.
           ++ lia.
           ++ intros v Hv Hcv. apply in_app_or in Hv. destruct Hv as [Hv|[<-|[]]].
              ** apply Hmin; [exact Hv|lia].
              ** assert (mf < s); [|lia]. apply Hlt; [exact Hin|now left].
Qed.

Lemma stats_mode_spec (a : list Z) :
  a <> [] ->
  exists m c,
    stats_mode a = ([m], [c]) /\
    In m a /\ c = count_equal m a /\
    (forall v, count_equal v a <= c) /\
    (forall v, count_equal v a = c -> m <= v).
Proof.
  intro Hne. unfold stats_mode.
  destruct a as [|x a'] eqn:Ea; [contradiction|]. rewrite <- Ea in *.
  destruct (fold_left (mode_step a) (np_unique a) (0, 0)) as [m c] eqn:Ef.
  apply (mode_fold_inv a (np_unique a) [] 0 0 (np_unique_sorted a)) in Ef;
    [| intros ? ? [] | lia | intros ? [] | now left].
  cbn [app] in Ef. destruct Ef as [Hc [Hle Hmode]].
  assert (Hx : In x a) by (rewrite Ea; now left).
  assert (Hpos : 0 < c).
  { pose proof (proj2 (count_equal_pos x a) Hx).
    specialize (Hle x (proj2 (np_unique_In x a) Hx)). lia. }
  destruct Hmode as [->|[Hm [Hcm Hmin]]]; [lia|].
  exists m, c. split; [reflexivity|].
  split; [apply np_unique_In; exact Hm|].
  split; [symmetry; exact Hcm|]. split.
  - intro v. destruct (Z.lt_ge_cases 0 (count_equal v a)) as [Hv|Hv]; [|lia].
    apply Hle. apply np_unique_In. apply count_equal_pos. exact Hv.
  - intros v Hv. apply Hmin; [|exact Hv].
    apply np_unique_In. apply count_equal_pos. lia.
Qed.

Lemma len_cons {A} (x : A) (l : list A) : len (x :: l) = 1 + len l.
Proof. unfold len. cbn [List.length]. lia. Qed.

Lemma argmax_scan_bound (row : list float) :
  forall i mp max_ind,
    0 <= max_ind < i ->
    0 <= argmax_scan row i mp max_ind < i + len row.
Proof.
  induction row as [|x rest IH]; intros i mp max_ind H.
  - cbn. unfold len. cbn. lia.
  - cbn [argmax_scan]. rewrite len_cons. pose proof (len_nonneg rest).
    destruct (negb (PrimFloat.leb x mp)).
    + destruct (PrimFloat.is_nan x); [lia|].
      specialize (IH (i + 1) x i ltac:(lia)). lia.
    + specialize (IH (i + 1) mp max_ind ltac:(lia)). lia.
Qed.

Lemma np_argmax_bound (row : list float) :
  0 < len row -> exists i, np_argmax row = Returns i /\ 0 <= i < len row.
Proof.
  destruct row as [|x rest]; [unfold len; cbn; lia|]. intros _.
  cbn [np_argmax]. eexists. split; [reflexivity|].
  rewrite len_cons. pose proof (len_nonneg rest).
  destruct (PrimFloat.is_nan x); [lia|].
  pose proof (argmax_scan_bound rest 1 x 0 ltac:(lia)). lia.
Qed.

Lemma np_argmax_axis1_total (classes : Z) (y_predicts : list (list float)) :
  0 < classes ->
  Forall (fun row => len row = classes) y_predicts ->
  exists argmaxes,
    np_argmax_axis1 y_predicts = Returns argmaxes /\
    List.length argmaxes = List.length y_predicts /\
    Forall (fun i => 0 <= i < classes) argmaxes.
Proof.
  intros Hc H. induction H as [|row rest Hrow Hrest IH].
  - exists []. cbn. auto.
  - destruct IH as [am [Ham [Hlen Hall]]].
    destruct (np_argmax_bound row ltac:(lia)) as [i [Hi Hb]].
    exists (i :: am). cbn [np_argmax_axis1]. rewrite Hi, Ham. cbn [bind].
    split; [reflexivity|]. split; [cbn; lia|].
    constructor; [lia|exact Hall].
Qed.

Lemma Qdiv_unit_interval (c n : Z) :
  0 <= c <= n -> 0 < n -> (0 <= inject_Z c / inject_Z n <= 1)%Q.
Proof.
  intros Hc Hn.
  assert (Hq : (0 < inject_Z n)%Q) by (unfold Qlt, inject_Z; cbn; lia).
  split.
  - apply Qle_shift_div_l; [exact Hq|]. rewrite Qmult_0_l.
    change 0%Q with (inject_Z 0). rewrite <- Zle_Qle. lia.
  - apply Qle_shift_div_r; [exact Hq|]. rewrite Qmult_1_l.
    rewrite <- Zle_Qle. lia.
Qed.

(** C4.  For every non-empty prediction batch of rows over the three
    classes, the aggregator returns the class index [m] that is the mode of
    the per-window argmax indices -- no index occurs more often, and every
    index occurring as often is at least [m] -- with the label found at
    index [m] of the label list and the confidence
    [count of m / number of windows], which lies between 0 and 1.  The
    argmaxes [0,0,1,0,0] give class 0 with confidence 0.8, and the tie
    [0,0,1,1] gives class 0 with confidence 0.5. *)
Theorem predict_recording_is_mode (y_predicts : list (list float)) :
  y_predicts <> [] ->
  Forall (fun row => len row = n_classes) y_predicts ->
  exists argmaxes m label conf,
    np_argmax_axis1 y_predicts = Returns argmaxes /\
    predict_recording y_predicts = Returns (m, label, conf) /\
    py_getitem LABELS m = Returns label /\
    In m argmaxes /\
    (forall v, count_equal v argmaxes <= count_equal m argmaxes) /\
    (forall v, count_equal v argmaxes = count_equal m argmaxes -> m <= v) /\
    conf = (inject_Z (count_equal m argmaxes) / inject_Z (len y_predicts))%Q /\
    (0 <= conf <= 1)%Q /\
    (exists c1, aggregate [0; 0; 1; 0; 0] 5 = Returns (0, "new"%string, c1) /\
                (c1 == 8 # 10)%Q) /\
    (exists c2, aggregate [0; 0; 1; 1] 4 = Returns (0, "new"%string, c2) /\
                (c2 == 5 # 10)%Q).
Proof.
  intros Hne Hrows.
  destruct (np_argmax_axis1_total n_classes y_predicts ltac:(reflexivity) Hrows)
    as [am [Ham [Hlen Hall]]].
  assert (Hne' : am <> []).
  { intro E. subst am. destruct y_predicts; [contradiction|discriminate]. }
  destruct (stats_mode_spec am Hne') as [m [c [Hmode [Hin [Hc [Hmax Hmin]]]]]].
  rewrite Forall_forall in Hall. pose proof (Hall m Hin) as Hm.
  assert (Hlab : exists label, py_getitem LABELS m = Returns label).
  { apply py_getitem_in_range. exact Hm. }
  destruct Hlab as [label Hlab].
  exists am, m, label, (inject_Z c / inject_Z (len y_predicts))%Q.
  split; [exact Ham|]. split; [|split; [exact Hlab|]].
  - unfold predict_recording. rewrite Ham. cbn [bind].
    unfold aggregate. rewrite Hmode. cbn [fst snd].
    change (py_getitem [m] 0) with (Returns m).
    change (py_getitem [c] 0) with (Returns c).
    cbn [bind]. rewrite Hlab. cbn [bind]. reflexivity.
  - split; [exact Hin|]. subst c.
    split; [exact Hmax|]. split; [exact Hmin|]. split; [reflexivity|].
    split.
    + apply Qdiv_unit_interval.
      * split; [apply count_equal_nonneg|].
        pose proof (count_equal_le_len m am). unfold len in *. lia.
      * destruct y_predicts; [contradiction|]. rewrite len_cons.
        pose proof (len_nonneg y_predicts). lia.
    + split; eexists; (split; [vm_compute; reflexivity|reflexivity]).
Qed.

Lemma predict_recording_is_mode_witness :
  let y_predicts := [[0.5; 0.25; 0.25]; [0.25; 0.5; 0.25]; [0.5; 0.5; 0]]%float in
  exists argmaxes m label conf,
    np_argmax_axis1 y_predicts = Returns argmaxes /\
    predict_recording y_predicts = Returns (m, label, conf) /\
    py_getitem LABELS m = Returns label /\
    In m argmaxes /\
    (forall v, count_equal v argmaxes <= count_equal m argmaxes) /\
    (forall v, count_equal v argmaxes = count_equal m argmaxes -> m <= v) /\
    conf = (inject_Z (count_equal m argmaxes) / inject_Z (len y_predicts))%Q /\
    (0 <= conf <= 1)%Q /\
    (exists c1, aggregate [0; 0; 1; 0; 0] 5 = Returns (0, "new"%string, c1) /\
                (c1 == 8 # 10)%Q) /\
    (exists c2, aggregate [0; 0; 1; 1] 4 = Returns (0, "new"%string, c2) /\
                (c2 == 5 # 10)%Q).
Proof.
  intro y_predicts.
  apply (predict_recording_is_mode y_predicts).
  - discriminate.
  - repeat constructor.
Defined.

(** * Further properties of the pipeline *)

(** ** Window generator: termination and coverage *)

Lemma windows_drain_stuck {A} (data : list A) (w : Z) :
  0 < len data -> w <= 0 ->
  forall fuel start, (start <= 0)%Q -> windows_drain fuel data w start = None.
Proof.
  intros HL Hw. induction fuel as [|fuel IH]; intros start Hs; [reflexivity|].
  cbn [windows_drain]. unfold windows_next.
  assert (Hlt : Qlt_bool start (inject_Z (len data)) = true).
  { apply Qlt_bool_iff. apply Qle_lt_trans with (y := 0%Q); [exact Hs|].
    unfold Qlt, inject_Z; cbn [Qnum Qden]. lia. }
  rewrite Hlt. rewrite IH; [reflexivity|].
  assert (Hh : (inject_Z w / 2 <= 0)%Q).
  { unfold Qle, Qdiv, Qmult, Qinv, inject_Z; cbn [Qnum Qden]. lia. }
  apply Qle_trans with (y := (0 + 0)%Q); [|apply Qle_refl].
  apply Qplus_le_compat; assumption.
Qed.

(** The generator stops exactly when the sequence is empty or the window
    size is positive: on a non-empty sequence a zero or negative window size
    never lets [start] reach the length. *)
Theorem windows_terminates_iff {A} (data : list A) (window_size : Z) :
  (exists fuel ps, windows fuel data window_size = Some ps)
  <-> (data = [] \/ 0 < window_size).
Proof.
  split.
  - intros [fuel [ps H]].
    destruct data as [|x data]; [now left|]. right.
    destruct (Z.lt_ge_cases 0 window_size) as [Hw|Hw]; [exact Hw|].
    unfold windows, windows_init in H.
    rewrite (windows_drain_stuck (x :: data) window_size) in H;
      [discriminate| |lia|apply Qle_refl].
    rewrite len_cons. pose proof (len_nonneg data). lia.
  - intros [->|Hw].
    + exists 1%nat, []. reflexivity.
    + exists (S (2 * List.length data)), (half_pairs (steps_left (len data) window_size 0) 0 window_size).
      apply windows_closed_form; [exact Hw|lia].
Qed.

Lemma In_half_pairs_nth (w : Z) (n : nat) (m : Z) (k : nat) :
  (k < n)%nat ->
  In ((m + Z.of_nat k * w) / 2, (m + Z.of_nat k * w) / 2 + w) (half_pairs n m w).
Proof.
  intro Hk. rewrite <- (nth_half_pairs w n m k Hk).
  apply nth_In. rewrite length_half_pairs. exact Hk.
Qed.

Lemma In_half_pairs_even (h : Z) (n : nat) :
  forall (a s e : Z), 0 < h ->
    In (s, e) (half_pairs n (2 * a) (2 * h)) ->
    exists k, 0 <= k /\ s = a + k * h /\ e = s + 2 * h.
Proof.
  induction n as [|n IH]; intros a s e Hh Hin; [contradiction|].
  cbn [half_pairs] in Hin. destruct Hin as [Heq|Hin].
  - assert (Hs : s = 2 * a / 2) by congruence.
    assert (He : e = 2 * a / 2 + 2 * h) by congruence.
    rewrite (Z.mul_comm 2 a), Z.div_mul in Hs, He by lia.
    exists 0. lia.
  - replace (2 * a + 2 * h) with (2 * (a + h)) in Hin by lia.
    destruct (IH (a + h) s e Hh Hin) as [k [Hk [Hs He]]].
    exists (k + 1). lia.
Qed.

(** With an even window size [2 * h], the windows that pass the caller's
    test all lie within the sequence and end at or before [h * (L / h)],
    and together they cover every sample index below that bound when
    [L >= 2 * h]: fewer than [h] trailing samples are left out of every
    window.  A sequence shorter than one window gives no window at all. *)
Theorem surviving_windows_cover {A} (data : list A) (h : Z) (fuel : nat) :
  0 < h -> (2 * List.length data < fuel)%nat ->
  exists ps,
    surviving_windows fuel data (2 * h) = Some ps /\
    (forall s e, In (s, e) ps ->
       0 <= s /\ e = s + 2 * h /\ e <= h * (len data / h)) /\
    (len data < 2 * h -> ps = []) /\
    (2 * h <= len data ->
     forall i, 0 <= i < h * (len data / h) ->
       exists s e, In (s, e) ps /\ s <= i < e) /\
    len data - h * (len data / h) < h.
Proof.
  intros Hh Hf. pose proof (len_nonneg data) as HL.
  unfold surviving_windows.
  rewrite (windows_closed_form data (2 * h) fuel ltac:(lia) Hf).
  eexists. split; [reflexivity|].
  assert (Hpairs : forall s e,
            In (s, e) (filter (full_length data (2 * h))
                         (half_pairs (steps_left (len data) (2 * h) 0) 0 (2 * h))) ->
            0 <= s /\ e = s + 2 * h /\ e <= h * (len data / h)).
  { intros s e Hin. apply filter_In in Hin. destruct Hin as [Hin Hfull].
    change 0 with (2 * 0) in Hin at 2.
    apply In_half_pairs_even in Hin; [|exact Hh].
    destruct Hin as [k [Hk [Hs He]]]. subst e.
    rewrite full_length_window in Hfull by lia. apply Z.leb_le in Hfull.
    split; [lia|]. split; [reflexivity|].
    assert (k + 2 <= len data / h) by (apply Z.div_le_lower_bound; lia).
    nia. }
  split; [exact Hpairs|]. split; [|split].
  - intro Hshort.
    destruct (filter _ _) as [|[s e] rest] eqn:E; [reflexivity|].
    destruct (Hpairs s e ltac:(now left)) as [Hs [He Hb]].
    pose proof (Z.mul_div_le (len data) h Hh). lia.
  - intros Hlong i Hi.
    pose proof (Z.mul_div_le (len data) h Hh) as Hle.
    assert (Hq : 2 <= len data / h) by (apply Z.div_le_lower_bound; lia).
    assert (Hih : 0 <= i / h) by (apply Z.div_pos; lia).
    assert (Hil : i / h < len data / h) by (apply Z.div_lt_upper_bound; lia).
    pose proof (Z.mul_div_le i h Hh) as Hi1.
    pose proof (Z.mul_succ_div_gt i h Hh) as Hi2.
    set (k := Z.min (i / h) (len data / h - 2)).
    assert (Hk : 0 <= k) by (unfold k; lia).
    assert (Hk1 : k * h <= i).
    { assert (k <= i / h) by (unfold k; lia). nia. }
    assert (Hk2 : i < k * h + 2 * h).
    { destruct (Z.le_gt_cases (i / h) (len data / h - 2)) as [Hc|Hc].
      - replace k with (i / h) by (unfold k; lia). nia.
      - replace k with (len data / h - 2) by (unfold k; lia).
        assert (i / h = len data / h - 1) by lia. nia. }
    assert (Hk3 : k * h + 2 * h <= len data).
    { assert (k + 2 <= len data / h) by (unfold k; lia). nia. }
    exists (k * h), (k * h + 2 * h). split; [|lia].
    apply filter_In. split.
    + replace (k * h) with ((0 + Z.of_nat (Z.to_nat k) * (2 * h)) / 2).
      * apply In_half_pairs_nth. apply steps_left_spec; lia.
      * rewrite Z2Nat.id by lia.
        replace (0 + k * (2 * h)) with (k * h * 2) by lia.
        apply Z.div_mul. lia.
    + rewrite full_length_window by lia. apply Z.leb_le. lia.
  - pose proof (Z.mod_pos_bound (len data) h Hh).
    rewrite Z.mod_eq in H by lia. lia.
Qed.

Lemma surviving_windows_cover_witness :
  exists ps,
    surviving_windows 15 [1; 2; 3; 4; 5; 6; 7] (2 * 2) = Some ps /\
    (forall s e, In (s, e) ps ->
       0 <= s /\ e = s + 2 * 2 /\ e <= 2 * (len [1; 2; 3; 4; 5; 6; 7] / 2)) /\
    (len [1; 2; 3; 4; 5; 6; 7] < 2 * 2 -> ps = []) /\
    (2 * 2 <= len [1; 2; 3; 4; 5; 6; 7] ->
     forall i, 0 <= i < 2 * (len [1; 2; 3; 4; 5; 6; 7] / 2) ->
       exists s e, In (s, e) ps /\ s <= i < e) /\
    len [1; 2; 3; 4; 5; 6; 7] - 2 * (len [1; 2; 3; 4; 5; 6; 7] / 2) < 2.
Proof.
  apply (surviving_windows_cover [1; 2; 3; 4; 5; 6; 7] 2 15); [reflexivity|cbn; lia].
Defined.

(** ** Feature extractor: the corpus it builds

    [librosa.feature.mfcc] raises on a signal that is not valid audio (nan
    or infinite samples, as the normaliser makes of a silent clip), so the
    properties below are about the corpus of a call that returns, and about
    calls that cannot return. *)

Lemma py_getitem_skipn {A} (l : list A) (i : Z) :
  0 <= i < len l ->
  exists a, py_getitem l i = Returns a /\
            skipn (Z.to_nat i) l = a :: skipn (Z.to_nat (i + 1)) l.
Proof.
  intros [Hi Hl]. unfold py_getitem.
  destruct (i <? 0) eqn:E; [apply Z.ltb_lt in E; lia|]. rewrite E. cbn [orb].
  destruct (len l <=? i) eqn:E'; [apply Z.leb_le in E'; lia|].
  replace (Z.to_nat (i + 1)) with (S (Z.to_nat i)) by lia.
  assert (Hn : (Z.to_nat i < List.length l)%nat) by (unfold len in Hl; lia).
  clear - Hn. revert l Hn. induction (Z.to_nat i) as [|n IH]; intros l Hn.
  - destruct l as [|a l]; [cbn in Hn; lia|]. exists a. auto.
  - destruct l as [|x l]; [cbn in Hn; lia|]. cbn in Hn.
    destruct (IH l ltac:(lia)) as [a [Ha Hs]].
    exists a. cbn [nth_error skipn]. split; [exact Ha|exact Hs].
Qed.

Lemma py_getitem_returns_range {A} (l : list A) (i : Z) (a : A) :
  0 <= i -> py_getitem l i = Returns a -> i < len l.
Proof.
  intros Hi H. unfold py_getitem in H.
  destruct (i <? 0) eqn:E; [apply Z.ltb_lt in E; lia|]. rewrite E in H.
  cbn [orb] in H.
  destruct (len l <=? i) eqn:E'; [discriminate|]. apply Z.leb_gt in E'. lia.
Qed.

Lemma map_const_repeat {A B} (b : B) (l : list A) :
  map (fun _ => b) l = repeat b (List.length l).
Proof. induction l as [|x l IH]; cbn; [reflexivity|now rewrite IH]. Qed.

Lemma full_window_count {A} (data : list A) (frames : Z) :
  2 <= frames ->
  List.length (filter (full_length data (512 * (frames - 1)))
                 (half_pairs (steps_left (len data) (512 * (frames - 1)) 0) 0
                             (512 * (frames - 1))))
  = Z.to_nat (spec_window_count (len data) (512 * (frames - 1))).
Proof.
  intro Hf. set (h := 256 * (frames - 1)).
  assert (Hh : 0 < h) by (unfold h; lia).
  replace (512 * (frames - 1)) with (2 * h) by (unfold h; lia).
  pose proof (count_even data h Hh _ 0 ltac:(lia) eq_refl) as Hc.
  change (2 * 0) with 0 in Hc.
  replace (len data - 0 - h) with (len data - h) in Hc by lia.
  apply Nat2Z.inj. fold (len (filter (full_length data (2 * h))
    (half_pairs (steps_left (len data) (2 * h) 0) 0 (2 * h)))).
  rewrite Hc. unfold spec_window_count.
  destruct (len data <? 2 * h) eqn:E.
  - apply Z.ltb_lt in E.
    assert ((len data - h) / h < 1) by (apply Z.div_lt_upper_bound; lia).
    cbn [Z.to_nat Z.of_nat]. lia.
  - apply Z.ltb_ge in E. rewrite Qfloor_half_stride by assumption.
    replace (len data - h) with ((len data - 2 * h) + 1 * h) by lia.
    rewrite Z.div_add by lia.
    assert (0 <= (len data - 2 * h) / h) by (apply Z.div_pos; lia). lia.
Qed.

Section ExtractorCorpus.

Variable os_path_join : string -> string -> string.
Variable librosa_load : string -> list float * Z.
Variable librosa_mfcc : list float -> Z -> Z -> ndarray2.

Lemma clip_loop_some_drain (clip : list float) (s bands w : Z) (label : string) :
  forall fuel gen mfccs labels r,
    clip_loop librosa_mfcc fuel clip s label w bands gen mfccs labels = Some r ->
    exists ps, windows_drain fuel clip w gen = Some ps.
Proof.
  induction fuel as [|fuel IH]; intros gen mfccs labels r H; [discriminate|].
  cbn [clip_loop windows_drain] in *.
  destruct (windows_next clip w gen) as [[[st en] gen']|]; [|eauto].
  destruct (len (py_slice clip st en) =? w);
    apply IH in H; destruct H as [ps ->]; cbn [option_map]; eauto.
Qed.

Lemma files_loop_returned (base_dir : string) (names : list string)
  (bands frames : Z) (fuel : nat) :
  2 <= frames ->
  forall paths i mfccs labels mfccs' labels',
    0 <= i <= len names ->
    List.length mfccs = List.length labels ->
    files_loop os_path_join librosa_load librosa_mfcc fuel base_dir i paths
               names (512 * (frames - 1)) bands mfccs labels
    = Some (Returns (mfccs', labels')) ->
    i + len paths <= len names /\
    labels'
    = labels ++
      flat_map (fun pn : string * string =>
                  repeat (snd pn)
                         (clip_window_count os_path_join librosa_load
                                            base_dir frames (fst pn)))
               (combine paths (skipn (Z.to_nat i) names)) /\
    List.length mfccs' = List.length labels'.
Proof.
  intro Hfr.
  induction paths as [|path paths IH];
    intros i mfccs labels mfccs' labels' Hi Hlen H.
  - cbn in H. injection H as <- <-. cbn [combine flat_map].
    rewrite app_nil_r. unfold len at 1. cbn [List.length Z.of_nat].
    split; [lia|]. split; [reflexivity|exact Hlen].
  - cbn [files_loop] in H. rewrite len_cons.
    destruct (librosa_load (os_path_join base_dir path)) as [clip s] eqn:El.
    destruct (feature_normalize clip) as [clip'|e] eqn:En; [|discriminate].
    apply feature_normalize_length in En.
    destruct (py_getitem names i) as [label|e] eqn:Eg; [|discriminate].
    pose proof (py_getitem_returns_range names i label ltac:(lia) Eg) as Hr.
    destruct (py_getitem_skipn names i ltac:(lia)) as [label' [Eg' Hskip]].
    assert (label' = label) by congruence. subst label'.
    destruct (clip_loop librosa_mfcc fuel clip' s label (512 * (frames - 1))
                        bands windows_init mfccs labels)
      as [[mfccs1 labels1]|] eqn:Ec; [|discriminate].
    destruct (clip_loop_some_drain _ _ _ _ _ _ _ _ _ _ Ec) as [ps Hd].
    pose proof (windows_drain_inv clip' (512 * (frames - 1)) ltac:(lia)
                  fuel 0 windows_init ps ltac:(lia) ltac:(reflexivity) Hd)
      as Hps.
    rewrite (clip_loop_drain librosa_mfcc clip' s bands (512 * (frames - 1))
               label fuel windows_init mfccs labels ps Hd) in Ec.
    match type of Ec with
    | Some (?m1, ?l1) = _ =>
        assert (Hm1 : mfccs1 = m1) by congruence;
        assert (Hl1 : labels1 = l1) by congruence
    end.
    subst mfccs1 labels1 ps. clear Ec.
    apply IH in H; [|lia|rewrite !length_app, !length_map; lia].
    destruct H as [Hn [Hl Hm]].
    split; [lia|]. split; [|exact Hm].
    rewrite Hl, Hskip. cbn [combine flat_map fst snd].
    rewrite map_const_repeat, full_window_count by exact Hfr.
    assert (Hc : len clip' = len clip) by (unfold len; now rewrite En).
    rewrite Hc. unfold clip_window_count at 2. rewrite El. cbn [fst].
    rewrite <- app_assoc. reflexivity.
Qed.

(** For [frames >= 2], whenever [extract_features] returns, every file had
    a name and the returned labels are, file after file in the order of the
    file list, the file's name repeated once per window of its clip, the
    number of windows of a clip of [L] samples being
    [floor((L - window_size) / (window_size / 2)) + 1] (zero when
    [L < window_size]); there is one feature window per label. *)
Theorem extract_features_labels (base_dir : string)
  (sound_file_paths names : list string) (bands frames : Z) (fuel : nat)
  (features : list ndarray2) (labels : list string) :
  2 <= frames ->
  extract_features os_path_join librosa_load librosa_mfcc fuel base_dir
                   sound_file_paths names bands frames
  = Some (Returns (features, labels)) ->
  len sound_file_paths <= len names /\
  labels
  = flat_map
      (fun pn =>
         repeat (snd pn)
                (clip_window_count os_path_join librosa_load base_dir frames
                                   (fst pn)))
      (combine sound_file_paths names) /\
  List.length features = List.length labels.
Proof.
  intros Hfr H. unfold extract_features in H.
  apply (files_loop_returned base_dir names bands frames fuel Hfr) in H;
    [|pose proof (len_nonneg names); lia|reflexivity].
  cbn [app Z.to_nat skipn] in H. destruct H as [Hn [Hl Hm]].
  split; [lia|]. split; assumption.
Qed.

Lemma uniform_label_count (base_dir : string) (frames L : Z) :
  forall paths names,
    (List.length paths <= List.length names)%nat ->
    (forall path, In path paths ->
       len (fst (librosa_load (os_path_join base_dir path))) = L) ->
    List.length
      (flat_map (fun pn : string * string => repeat (snd pn)
                   (clip_window_count os_path_join librosa_load base_dir frames
                                      (fst pn)))
                (combine paths names))
    = (List.length paths
       * Z.to_nat (spec_window_count L (512 * (frames - 1))))%nat.
Proof.
  induction paths as [|path paths IH]; intros names Hn HL; [reflexivity|].
  destruct names as [|name names]; [cbn in Hn; lia|].
  cbn [combine flat_map fst snd List.length].
  rewrite length_app, repeat_length, IH.
  - unfold clip_window_count. rewrite (HL path) by now left. lia.
  - cbn in Hn. lia.
  - intros p Hp. apply HL. now right.
Qed.

(** For [frames >= 2] and clips that all have the same number [L] of
    samples, a corpus that [extract_features] returns holds the number of
    files times the window count of one clip.  For the six files of the
    notebook, 10 s at 22050 Hz each (220500 samples), and [frames = 41],
    that is the 120 windows of the recorded
    [features.shape = (120, 41, 20)]. *)
Theorem extract_features_uniform_corpus (base_dir : string)
  (sound_file_paths names : list string) (bands frames L : Z) (fuel : nat)
  (features : list ndarray2) (labels : list string) :
  2 <= frames ->
  (forall path, In path sound_file_paths ->
     len (fst (librosa_load (os_path_join base_dir path))) = L) ->
  extract_features os_path_join librosa_load librosa_mfcc fuel base_dir
                   sound_file_paths names bands frames
  = Some (Returns (features, labels)) ->
  List.length features
  = (List.length sound_file_paths
     * Z.to_nat (spec_window_count L (512 * (frames - 1))))%nat /\
  (L = 220500 -> frames = 41 -> List.length sound_file_paths = 6%nat ->
   List.length features = 120%nat).
Proof.
  intros Hfr HL H. unfold extract_features in H.
  apply (files_loop_returned base_dir names bands frames fuel Hfr) in H;
    [|pose proof (len_nonneg names); lia|reflexivity].
  cbn [app Z.to_nat skipn] in H. destruct H as [Hn [Hl Hm]].
  assert (Hcount : List.length features
                   = (List.length sound_file_paths
                      * Z.to_nat (spec_window_count L (512 * (frames - 1))))%nat).
  { rewrite Hm, Hl.
    apply uniform_label_count; [unfold len in Hn; lia|exact HL]. }
  split; [exact Hcount|].
  intros -> -> H6. rewrite Hcount, H6. reflexivity.
Qed.

Lemma files_loop_never_returns (base_dir : string) (names : list string)
  (bands w : Z) (fuel : nat) :
  forall paths i mfccs labels r,
    0 <= i <= len names -> len names < i + len paths ->
    files_loop os_path_join librosa_load librosa_mfcc fuel base_dir i paths
               names w bands mfccs labels
    <> Some (Returns r).
Proof.
  induction paths as [|path paths IH]; intros i mfccs labels r Hi Hn H.
  - unfold len in Hn at 2. cbn in Hn. lia.
  - cbn [files_loop] in H. rewrite len_cons in Hn.
    destruct (librosa_load (os_path_join base_dir path)) as [clip s].
    destruct (feature_normalize clip) as [clip'|e]; [|discriminate].
    destruct (py_getitem names i) as [label|e] eqn:Eg; [|discriminate].
    pose proof (py_getitem_returns_range names i label ltac:(lia) Eg) as Hr.
    destruct (clip_loop librosa_mfcc fuel clip' s label w bands windows_init
                        mfccs labels) as [[mfccs1 labels1]|]; [|discriminate].
    apply IH in H; [exact H|lia|lia].
Qed.

(** When the file list is longer than the name list, [extract_features]
    never returns a corpus, whatever [bands], [frames] and the clips: the
    call ends in an error ([IndexError] at the first file without a name,
    unless an earlier call raises) or does not end. *)
Theorem extract_features_missing_name (base_dir : string)
  (sound_file_paths names : list string) (bands frames : Z) (fuel : nat)
  (features : list ndarray2) (labels : list string) :
  len names < len sound_file_paths ->
  extract_features os_path_join librosa_load librosa_mfcc fuel base_dir
                   sound_file_paths names bands frames
  <> Some (Returns (features, labels)).
Proof.
  intros Hn. unfold extract_features.
  apply files_loop_never_returns; [pose proof (len_nonneg names); lia|lia].
Qed.

End ExtractorCorpus.

Lemma extract_features_labels_witness :
  let load := fun _ : string => (map float_of_Z (py_range 1024), 22050) in
  let mfcc := fun (y : list float) (_ n_mfcc : Z) =>
                mk_ndarray2 (n_mfcc, 1 + len y / hop_length) [] in
  exists features labels,
    extract_features String.append load mfcc 2049 "data/"
                     ["a.wav"%string] ["new"%string] 20 2
    = Some (Returns (features, labels)) /\
    len ["a.wav"%string] <= len ["new"%string] /\
    labels
    = flat_map
        (fun pn =>
           repeat (snd pn)
                  (clip_window_count String.append load "data/" 2 (fst pn)))
        (combine ["a.wav"%string] ["new"%string]) /\
    List.length features = List.length labels.
Proof.
  intros load mfcc.
  destruct (extract_features String.append load mfcc 2049 "data/"
              ["a.wav"%string] ["new"%string] 20 2)
    as [[[features labels]|e]|] eqn:E.
  - exists features, labels. split; [reflexivity|].
    apply (extract_features_labels String.append load mfcc "data/"
             ["a.wav"%string] ["new"%string] 20 2 2049 features labels);
      [lia|exact E].
  - vm_compute in E. discriminate.
  - vm_compute in E. discriminate.
Defined.

Lemma extract_features_uniform_corpus_witness :
  let load := fun _ : string => (map float_of_Z (py_range 1024), 22050) in
  let mfcc := fun (y : list float) (_ n_mfcc : Z) =>
                mk_ndarray2 (n_mfcc, 1 + len y / hop_length) [] in
  exists features labels,
    extract_features String.append load mfcc 2049 "data/"
                     ["a.wav"; "b.wav"]%string ["new"; "red"]%string 20 2
    = Some (Returns (features, labels)) /\
    List.length features
    = (List.length ["a.wav"; "b.wav"]%string
       * Z.to_nat (spec_window_count 1024 (512 * (2 - 1))))%nat /\
    (1024 = 220500 -> 2 = 41 -> List.length ["a.wav"; "b.wav"]%string = 6%nat ->
     List.length features = 120%nat).
Proof.
  intros load mfcc.
  destruct (extract_features String.append load mfcc 2049 "data/"
              ["a.wav"; "b.wav"]%string ["new"; "red"]%string 20 2)
    as [[[features labels]|e]|] eqn:E.
  - exists features, labels. split; [reflexivity|].
    apply (extract_features_uniform_corpus String.append load mfcc "data/"
             ["a.wav"; "b.wav"]%string ["new"; "red"]%string 20 2 1024 2049
             features labels);
      [lia|intros path _; vm_compute; reflexivity|exact E].
  - vm_compute in E. discriminate.
  - vm_compute in E. discriminate.
Defined.

Lemma extract_features_missing_name_witness :
  let load := fun _ : string => (map float_of_Z (py_range 1024), 22050) in
  let mfcc := fun (y : list float) (_ n_mfcc : Z) =>
                mk_ndarray2 (n_mfcc, 1 + len y / hop_length) [] in
  extract_features String.append load mfcc 2049 "data/"
                   ["a.wav"; "b.wav"]%string ["new"%string] 20 2
  <> Some (Returns ([], [])).
Proof.
  intros load mfcc.
  apply (extract_features_missing_name String.append load mfcc "data/"
           ["a.wav"; "b.wav"]%string ["new"%string] 20 2 2049 [] []).
  vm_compute. reflexivity.
Defined.

(** ** Trainer: errors, alignment and reporting *)

Lemma skipn_combine {A B} (n : nat) :
  forall (l : list A) (l' : list B),
    combine (skipn n l) (skipn n l') = skipn n (combine l l').
Proof.
  induction n as [|n IH]; intros l l'; [reflexivity|].
  destruct l as [|x l]; [reflexivity|].
  destruct l' as [|y l']; cbn [skipn combine].
  - destruct (skipn n l); reflexivity.
  - apply IH.
Qed.

Lemma py_slice_combine {A B} (l : list A) (l' : list B) (i j : Z) :
  List.length l = List.length l' ->
  combine (py_slice l i j) (py_slice l' i j) = py_slice (combine l l') i j.
Proof.
  intro H. unfold py_slice, len.
  rewrite length_combine, <- H, Nat.min_id.
  rewrite <- skipn_combine, combine_firstn. reflexivity.
Qed.

Lemma py_range_pos (n : Z) :
  0 < n -> exists rest, py_range n = 0 :: rest.
Proof.
  intro H. unfold py_range.
  destruct (Z.to_nat n) as [|k] eqn:E; [lia|].
  cbn [seq map]. eexists. reflexivity.
Qed.

Lemma length_py_range (n : Z) : List.length (py_range n) = Z.to_nat n.
Proof. unfold py_range. now rewrite length_map, length_seq. Qed.

Section TrainerFurther.

Variables X Y params : Type.
Variable run_optimizer : params -> list X -> list Y -> params * float.
Variable run_accuracy : params -> list X -> list Y -> float.
Variable run_loss : params -> list X -> list Y -> float.

(** The loop raises [ZeroDivisionError] exactly when it has an iteration to
    run and either the corpus has [batch_size] examples (the modulus of the
    offset is zero) or [display_step] is zero.  Otherwise it returns after one
    gradient step per iteration; without iterations it returns at once. *)
Theorem train_zero_division (labels : list Y) (X_train : list X)
  (y_train : list Y) (iters bs ds : Z) (session0 : params) :
  (0 < iters ->
   (train X Y params run_optimizer run_accuracy run_loss labels X_train y_train
          iters bs ds session0 = Raises ZeroDivisionError
    <-> (len labels = bs \/ ds = 0))) /\
  (len labels <> bs -> ds <> 0 ->
   exists st,
     train X Y params run_optimizer run_accuracy run_loss labels X_train y_train
           iters bs ds session0 = Returns st /\
     List.length (fed st) = Z.to_nat iters) /\
  (iters <= 0 ->
   train X Y params run_optimizer run_accuracy run_loss labels X_train y_train
         iters bs ds session0
   = Returns (mk_train_state X Y params session0 [] [])).
Proof.
  assert (Hok : len labels <> bs -> ds <> 0 ->
    exists st,
      train X Y params run_optimizer run_accuracy run_loss labels X_train y_train
            iters bs ds session0 = Returns st /\
      List.length (fed st) = Z.to_nat iters).
  { intros Hb Hd.
    destruct (train_loop_fed X Y params run_optimizer run_accuracy run_loss
                labels X_train y_train bs ds ltac:(lia) Hd (py_range iters)
                (mk_train_state X Y params session0 [] []))
      as [st [Hrun Hfed]].
    exists st. split; [exact Hrun|].
    rewrite Hfed. cbn [fed app]. now rewrite length_map, length_py_range. }
  split; [|split; [exact Hok|]].
  - intro Hit. split.
    + intro Hraise.
      destruct (Z.eq_dec (len labels) bs) as [Hb|Hb]; [now left|].
      destruct (Z.eq_dec ds 0) as [Hd|Hd]; [now right|].
      destruct (Hok Hb Hd) as [st [Hrun _]]. congruence.
    + intro Hcase. unfold train.
      destruct (py_range_pos iters Hit) as [rest ->].
      cbn [train_loop]. unfold train_iteration, batch_offset, py_mod.
      destruct Hcase as [Hb|Hd].
      * replace (len labels - bs =? 0) with true
          by (symmetry; apply Z.eqb_eq; lia).
        reflexivity.
      * destruct (len labels - bs =? 0); [reflexivity|].
        cbn [bind]. destruct (run_optimizer _ _ _) as [session' c].
        subst ds. reflexivity.
  - intro Hit. unfold train, py_range.
    replace (Z.to_nat iters) with O by lia. reflexivity.
Qed.

End TrainerFurther.

Section TrainerBatches.

Variables X Y params : Type.
Variable run_optimizer : params -> list X -> list Y -> params * float.
Variable run_accuracy : params -> list X -> list Y -> float.
Variable run_loss : params -> list X -> list Y -> float.

Lemma train_fed (labels : list Y) (X_train : list X) (y_train : list Y)
  (iters bs ds : Z) (session0 : params) :
  len labels <> bs -> ds <> 0 ->
  exists st,
    train X Y params run_optimizer run_accuracy run_loss labels X_train y_train
          iters bs ds session0 = Returns st /\
    fed st = map (batch_of labels X_train y_train bs) (py_range iters).
Proof.
  intros Hb Hd.
  destruct (train_loop_fed X Y params run_optimizer run_accuracy run_loss
              labels X_train y_train bs ds ltac:(lia) Hd (py_range iters)
              (mk_train_state X Y params session0 [] []))
    as [st [Hrun Hfed]].
  exists st. split; [exact Hrun|exact Hfed].
Qed.

(** In a run that returns, the windows and the labels of every batch fed to
    the gradient step are the same positions of the training split: zipped
    together they are the slice of the zipped training split, so a window
    never meets the label of another example (given as many training labels
    as training windows). *)
Theorem train_batches_aligned (labels : list Y) (X_train : list X)
  (y_train : list Y) (iters bs ds : Z) (session0 : params) :
  List.length X_train = List.length y_train ->
  len labels <> bs -> ds <> 0 ->
  exists st,
    train X Y params run_optimizer run_accuracy run_loss labels X_train y_train
          iters bs ds session0 = Returns st /\
    forall itr batch_x batch_y,
      In (itr, batch_x, batch_y) (fed st) ->
      let offset := (itr * bs) mod (len labels - bs) in
      combine batch_x batch_y
      = py_slice (combine X_train y_train) offset (offset + bs) /\
      List.length batch_x = List.length batch_y.
Proof.
  intros Hxy Hb Hd.
  destruct (train_fed labels X_train y_train iters bs ds session0 Hb Hd)
    as [st [Hrun Hfed]].
  exists st. split; [exact Hrun|].
  intros itr bx by_ Hin offset. rewrite Hfed in Hin.
  apply in_map_iff in Hin. destruct Hin as [itr' [Heq _]].
  unfold batch_of in Heq.
  assert (itr' = itr) by congruence. subst itr'.
  assert (Hbx : bx = py_slice X_train offset (offset + bs)) by (unfold offset; congruence).
  assert (Hby : by_ = py_slice y_train offset (offset + bs)) by (unfold offset; congruence).
  subst bx by_. split; [apply py_slice_combine; exact Hxy|].
  unfold py_slice, len. rewrite <- Hxy. now rewrite !length_firstn, !length_skipn, Hxy.
Qed.

(** When the training split is at least as long as the label array whose
    length the offset is reduced by (no examples held out), every batch of
    a run has exactly [batch_size] examples: the offset stays in
    [0, len(labels) - batch_size). *)
Theorem train_batches_full (labels : list Y) (X_train : list X)
  (y_train : list Y) (iters bs ds : Z) (session0 : params) :
  0 < bs < len labels ->
  len labels <= len X_train -> len labels <= len y_train -> ds <> 0 ->
  exists st,
    train X Y params run_optimizer run_accuracy run_loss labels X_train y_train
          iters bs ds session0 = Returns st /\
    forall itr batch_x batch_y,
      In (itr, batch_x, batch_y) (fed st) ->
      len batch_x = bs /\ len batch_y = bs.
Proof.
  intros Hbs Hx Hy Hd.
  destruct (train_fed labels X_train y_train iters bs ds session0 ltac:(lia) Hd)
    as [st [Hrun Hfed]].
  exists st. split; [exact Hrun|].
  intros itr bx by_ Hin. rewrite Hfed in Hin.
  apply in_map_iff in Hin. destruct Hin as [itr' [Heq _]].
  unfold batch_of in Heq.
  pose proof (Z.mod_pos_bound (itr' * bs) (len labels - bs) ltac:(lia)) as Hoff.
  set (offset := (itr' * bs) mod (len labels - bs)) in *.
  assert (Hbx : bx = py_slice X_train offset (offset + bs)) by congruence.
  assert (Hby : by_ = py_slice y_train offset (offset + bs)) by congruence.
  subst bx by_. rewrite !len_py_slice by lia. lia.
Qed.

Lemma train_loop_printed (labels : list Y) (X_train : list X) (y_train : list Y)
  (bs ds : Z) :
  len labels - bs <> 0 -> ds <> 0 ->
  forall itrs st,
    exists st',
      train_loop X Y params run_optimizer run_accuracy run_loss
                 labels X_train y_train bs ds itrs st
      = Returns st' /\
      map (fun e => fst (fst e)) (printed st')
      = map (fun e => fst (fst e)) (printed st)
        ++ filter (fun itr => itr mod ds =? 0) itrs.
Proof.
  intros Hb Hd. induction itrs as [|itr itrs IH]; intro st.
  - exists st. cbn. now rewrite app_nil_r.
  - cbn [train_loop filter]. unfold train_iteration, batch_offset, py_mod.
    destruct (len labels - bs =? 0) eqn:Eb; [apply Z.eqb_eq in Eb; contradiction|].
    destruct (ds =? 0) eqn:Ed; [apply Z.eqb_eq in Ed; contradiction|].
    cbn [bind].
    destruct (run_optimizer _ _ _) as [session' c].
    cbn [bind].
    destruct (itr mod ds =? 0); cbn [bind].
    + match goal with
      | |- context [train_loop _ _ _ _ _ _ _ _ _ _ _ _ ?s] =>
          destruct (IH s) as [st' [Hrun Hp]]
      end.
      exists st'. split; [exact Hrun|].
      rewrite Hp. cbn [printed]. rewrite map_app. cbn [map fst].
      rewrite <- app_assoc. reflexivity.
    + match goal with
      | |- context [train_loop _ _ _ _ _ _ _ _ _ _ _ _ ?s] =>
          destruct (IH s) as [st' [Hrun Hp]]
      end.
      exists st'. split; [exact Hrun|].
      rewrite Hp. reflexivity.
Qed.

(** In a run that returns, a report line is printed for exactly the
    iterations that are multiples of [display_step], in order; with 300
    iterations and [display_step = 100] these are 0, 100 and 200, as in the
    recorded output of the notebook. *)
Theorem train_reports (labels : list Y) (X_train : list X)
  (y_train : list Y) (iters bs ds : Z) (session0 : params) :
  len labels <> bs -> ds <> 0 ->
  exists st,
    train X Y params run_optimizer run_accuracy run_loss labels X_train y_train
          iters bs ds session0 = Returns st /\
    map (fun e => fst (fst e)) (printed st)
    = filter (fun itr => itr mod ds =? 0) (py_range iters) /\
    (iters = training_iters -> ds = display_step ->
     map (fun e => fst (fst e)) (printed st) = [0; 100; 200]).
Proof.
  intros Hb Hd.
  destruct (train_loop_printed labels X_train y_train bs ds ltac:(lia) Hd
              (py_range iters) (mk_train_state X Y params session0 [] []))
    as [st [Hrun Hp]].
  cbn [printed map app] in Hp.
  exists st. split; [exact Hrun|]. split; [exact Hp|].
  intros -> ->. rewrite Hp. vm_compute. reflexivity.
Qed.

End TrainerBatches.

Lemma train_batches_aligned_witness :
  let step := fun (p : unit) (_ _ : list Z) => (p, 0%float) in
  let eval := fun (_ : unit) (_ _ : list Z) => 0%float in
  exists st,
    train Z Z unit step eval eval (py_range 12) (py_range 8) (py_range 8)
          6 2 3 tt = Returns st /\
    forall itr batch_x batch_y,
      In (itr, batch_x, batch_y) (fed st) ->
      let offset := (itr * 2) mod (len (py_range 12) - 2) in
      combine batch_x batch_y
      = py_slice (combine (py_range 8) (py_range 8)) offset (offset + 2) /\
      List.length batch_x = List.length batch_y.
Proof.
  intros step eval.
  apply (train_batches_aligned Z Z unit step eval eval
           (py_range 12) (py_range 8) (py_range 8) 6 2 3 tt).
  - reflexivity.
  - vm_compute. discriminate.
  - discriminate.
Defined.

Lemma train_batches_full_witness :
  let step := fun (p : unit) (_ _ : list Z) => (p, 0%float) in
  let eval := fun (_ : unit) (_ _ : list Z) => 0%float in
  exists st,
    train Z Z unit step eval eval (py_range 12) (py_range 12) (py_range 12)
          6 2 3 tt = Returns st /\
    forall itr batch_x batch_y,
      In (itr, batch_x, batch_y) (fed st) ->
      len batch_x = 2 /\ len batch_y = 2.
Proof.
  intros step eval.
  apply (train_batches_full Z Z unit step eval eval
           (py_range 12) (py_range 12) (py_range 12) 6 2 3 tt).
  - vm_compute. split; reflexivity.
  - vm_compute. discriminate.
  - vm_compute. discriminate.
  - discriminate.
Defined.

Lemma train_reports_witness :
  let step := fun (p : unit) (_ _ : list Z) => (p, 0%float) in
  let eval := fun (_ : unit) (_ _ : list Z) => 0%float in
  exists st,
    train Z Z unit step eval eval (py_range 12) (py_range 8) (py_range 8)
          6 2 3 tt = Returns st /\
    map (fun e => fst (fst e)) (printed st)
    = filter (fun itr => itr mod 3 =? 0) (py_range 6) /\
    (6 = training_iters -> 3 = display_step ->
     map (fun e => fst (fst e)) (printed st) = [0; 100; 200]).
Proof.
  intros step eval.
  apply (train_reports Z Z unit step eval eval
           (py_range 12) (py_range 8) (py_range 8) 6 2 3 tt).
  - vm_compute. discriminate.
  - discriminate.
Defined.

(** ** Label encoding: the one-hot rows *)

Lemma ascii_compare_refl (a : ascii) : Ascii.compare a a = Eq.
Proof. unfold Ascii.compare. apply N.compare_refl. Qed.

Lemma ascii_compare_lt_trans (a b c : ascii) :
  Ascii.compare a b = Lt -> Ascii.compare b c = Lt -> Ascii.compare a c = Lt.
Proof.
  unfold Ascii.compare. rewrite !N.compare_lt_iff. apply N.lt_trans.
Qed.

Lemma string_compare_lt_trans :
  forall a b c : string,
    String.compare a b = Lt -> String.compare b c = Lt -> String.compare a c = Lt.
Proof.
  induction a as [|x a IH]; intros b c Hab Hbc.
  - destruct b as [|y b]; [discriminate|].
    destruct c as [|z c]; [discriminate|reflexivity].
  - destruct b as [|y b]; [discriminate|].
    destruct c as [|z c].
    + discriminate.
    + cbn [String.compare] in *.
      destruct (Ascii.compare x y) eqn:Exy; [| |discriminate].
      * apply Ascii.compare_eq_iff in Exy. subst y.
        destruct (Ascii.compare x z); [|reflexivity|discriminate].
        apply (IH b c); assumption.
      * destruct (Ascii.compare y z) eqn:Eyz; [| |discriminate].
        -- apply Ascii.compare_eq_iff in Eyz. subst z. now rewrite Exy.
        -- now rewrite (ascii_compare_lt_trans x y z Exy Eyz).
Qed.

Lemma string_compare_irrefl (a : string) : String.compare a a <> Lt.
Proof.
  intro H. pose proof (String.compare_antisym a a) as Ha.
  rewrite H in Ha. discriminate.
Qed.

Lemma insert_sorted_In (v x : string) (l : list string) :
  In v (insert_sorted x l) <-> v = x \/ In v l.
Proof.
  induction l as [|y l IH]; cbn [insert_sorted].
  - cbn. intuition.
  - destruct (String.compare x y) eqn:E.
    + apply String.compare_eq_iff in E. subst. cbn. intuition.
    + cbn. intuition.
    + cbn [In]. rewrite IH. intuition.
Qed.

Lemma get_dummies_columns_In (v : string) (labels : list string) :
  In v (get_dummies_columns labels) <-> In v labels.
Proof.
  induction labels as [|x labels IH]; cbn [get_dummies_columns fold_right];
    [reflexivity|].
  fold (get_dummies_columns labels). rewrite insert_sorted_In, IH.
  cbn. intuition.
Qed.

Lemma insert_sorted_sorted (x : string) (l : list string) :
  StronglySorted string_lt l -> StronglySorted string_lt (insert_sorted x l).
Proof.
  induction l as [|y l IH]; intro H; cbn [insert_sorted].
  - repeat constructor.
  - apply StronglySorted_inv in H. destruct H as [Hs Hf].
    destruct (String.compare x y) eqn:E.
    + constructor; assumption.
    + constructor; [constructor; assumption|].
      constructor; [exact E|].
      apply Forall_forall. intros z Hz.
      rewrite Forall_forall in Hf. specialize (Hf z Hz).
      exact (string_compare_lt_trans x y z E Hf).
    + assert (Hyx : string_lt y x).
      { unfold string_lt. rewrite String.compare_antisym, E. reflexivity. }
      constructor; [apply IH; exact Hs|].
      apply Forall_forall. intros z Hz. apply insert_sorted_In in Hz.
      destruct Hz as [->|Hz]; [exact Hyx|].
      rewrite Forall_forall in Hf. apply Hf. exact Hz.
Qed.

Lemma get_dummies_columns_sorted (labels : list string) :
  StronglySorted string_lt (get_dummies_columns labels).
Proof.
  induction labels as [|x labels IH]; cbn [get_dummies_columns fold_right];
    [constructor|].
  apply insert_sorted_sorted. exact IH.
Qed.

Lemma sorted_NoDup (l : list string) : StronglySorted string_lt l -> NoDup l.
Proof.
  induction l as [|x l IH]; intro H; [constructor|].
  apply StronglySorted_inv in H. destruct H as [Hs Hf].
  constructor; [|apply IH; exact Hs].
  intro Hin. rewrite Forall_forall in Hf.
  exact (string_compare_irrefl x (Hf x Hin)).
Qed.

Lemma argmax_scan_zeros (k : nat) (j m : Z) :
  argmax_scan (repeat 0%float k) j 1%float m = m.
Proof.
  revert j. induction k as [|k IH]; intro j; [reflexivity|].
  cbn [repeat argmax_scan].
  change (negb (PrimFloat.leb 0 1)) with false. cbn iota. apply IH.
Qed.

Lemma argmax_scan_first_one (a k : nat) (j m : Z) :
  argmax_scan (repeat 0%float a ++ 1%float :: repeat 0%float k) j 0%float m
  = j + Z.of_nat a.
Proof.
  revert j. induction a as [|a IH]; intro j.
  - cbn [repeat app argmax_scan].
    change (negb (PrimFloat.leb 1 0)) with true.
    change (PrimFloat.is_nan 1) with false. cbn iota.
    rewrite argmax_scan_zeros. lia.
  - cbn [repeat app argmax_scan].
    change (negb (PrimFloat.leb 0 0)) with false. cbn iota.
    rewrite IH. lia.
Qed.

Lemma np_argmax_one_hot (a k : nat) :
  np_argmax (repeat 0%float a ++ 1%float :: repeat 0%float k)
  = Returns (Z.of_nat a).
Proof.
  destruct a as [|a].
  - cbn [repeat app np_argmax].
    change (PrimFloat.is_nan 1) with false. cbn iota.
    now rewrite argmax_scan_zeros.
  - cbn [repeat app np_argmax].
    change (PrimFloat.is_nan 0) with false. cbn iota.
    rewrite argmax_scan_first_one. f_equal. lia.
Qed.

Lemma one_hot_row_absent (cols : list string) (l : string) :
  ~ In l cols -> one_hot_row cols l = repeat 0%float (List.length cols).
Proof.
  induction cols as [|c cols IH]; intro H; [reflexivity|].
  cbn [one_hot_row map List.length repeat].
  destruct (String.eqb l c) eqn:E.
  - apply String.eqb_eq in E. subst. exfalso. apply H. now left.
  - f_equal. apply IH. intro Hin. apply H. now right.
Qed.

Lemma one_hot_row_split (cols : list string) (l : string) :
  NoDup cols -> In l cols ->
  exists i : nat,
    (i < List.length cols)%nat /\
    list_index l cols = Some (Z.of_nat i) /\
    nth_error cols i = Some l /\
    one_hot_row cols l
    = repeat 0%float i ++ 1%float :: repeat 0%float (List.length cols - i - 1).
Proof.
  induction cols as [|c cols IH]; intros Hnd Hin; [contradiction|].
  inversion Hnd as [|? ? Hc Hnd']; subst.
  cbn [one_hot_row map list_index].
  destruct (String.eqb l c) eqn:E.
  - apply String.eqb_eq in E. subst c. exists O.
    split; [cbn; lia|]. split; [reflexivity|]. split; [reflexivity|].
    cbn [repeat app List.length]. f_equal.
    fold (one_hot_row cols l). rewrite one_hot_row_absent by exact Hc.
    f_equal. lia.
  - apply String.eqb_neq in E.
    destruct Hin as [Heq|Hin]; [congruence|].
    destruct (IH Hnd' Hin) as [i [Hi [Hidx [Hnth Hrow]]]].
    exists (S i). split; [cbn; lia|].
    rewrite Hidx. split; [cbn [option_map]; f_equal; lia|].
    split; [exact Hnth|].
    fold (one_hot_row cols l). rewrite Hrow. reflexivity.
Qed.

(** The one-hot encoding and its own columns round-trip: for every label
    [l] of the corpus, its row has a single 1, at the index [i] of [l] among
    the sorted distinct labels, and zeros elsewhere; the argmax of the row
    is [i] and the [i]-th column name is [l] again. *)
Theorem one_hot_round_trip (labels : list string) (l : string) :
  In l labels ->
  exists i : nat,
    training_class_index labels l = Some (Z.of_nat i) /\
    one_hot_row (get_dummies_columns labels) l
    = repeat 0%float i
      ++ 1%float
         :: repeat 0%float (List.length (get_dummies_columns labels) - i - 1) /\
    np_argmax (one_hot_row (get_dummies_columns labels) l)
    = Returns (Z.of_nat i) /\
    py_getitem (get_dummies_columns labels) (Z.of_nat i) = Returns l.
Proof.
  intro Hin.
  destruct (one_hot_row_split (get_dummies_columns labels) l
              (sorted_NoDup _ (get_dummies_columns_sorted labels))
              (proj2 (get_dummies_columns_In l labels) Hin))
    as [i [Hi [Hidx [Hnth Hrow]]]].
  exists i. split; [exact Hidx|]. split; [exact Hrow|].
  split; [rewrite Hrow; apply np_argmax_one_hot|].
  unfold py_getitem.
  destruct (Z.of_nat i <? 0) eqn:E; [apply Z.ltb_lt in E; lia|]. rewrite E.
  cbn [orb].
  destruct (len (get_dummies_columns labels) <=? Z.of_nat i) eqn:E';
    [apply Z.leb_le in E'; unfold len in E'; lia|].
  rewrite Nat2Z.id, Hnth. reflexivity.
Qed.

Lemma one_hot_round_trip_witness :
  exists i : nat,
    training_class_index sound_names "red" = Some (Z.of_nat i) /\
    one_hot_row (get_dummies_columns sound_names) "red"
    = repeat 0%float i
      ++ 1%float
         :: repeat 0%float (List.length (get_dummies_columns sound_names) - i - 1) /\
    np_argmax (one_hot_row (get_dummies_columns sound_names) "red")
    = Returns (Z.of_nat i) /\
    py_getitem (get_dummies_columns sound_names) (Z.of_nat i) = Returns "red"%string.
Proof.
  apply (one_hot_round_trip sound_names "red"). cbn. tauto.
Defined.

(** The encoded array has one row per label and as many columns as the
    corpus has distinct labels: a corpus in which fewer than three classes
    occur is encoded in fewer than three columns. *)
Theorem one_hot_encode_shape (labels : list string) :
  List.length (one_hot_encode labels) = List.length labels /\
  Forall (fun row => List.length row = List.length (nodup string_dec labels))
         (one_hot_encode labels).
Proof.
  split; [unfold one_hot_encode; apply length_map|].
  assert (Hw : List.length (get_dummies_columns labels)
               = List.length (nodup string_dec labels)).
  { apply Permutation_length. apply NoDup_Permutation.
    - apply sorted_NoDup, get_dummies_columns_sorted.
    - apply NoDup_nodup.
    - intro v. rewrite get_dummies_columns_In, nodup_In. reflexivity. }
  apply Forall_forall. intros row Hrow. unfold one_hot_encode in Hrow.
  apply in_map_iff in Hrow. destruct Hrow as [l [<- _]].
  unfold one_hot_row. now rewrite length_map.
Qed.

(** ** Inference aggregator: what the confidence can be *)

Lemma count_equal_cons (v x : Z) (a : list Z) :
  count_equal v (x :: a) = (if v =? x then 1 else 0) + count_equal v a.
Proof.
  unfold count_equal. cbn [filter].
  destruct (v =? x); [rewrite len_cons|]; lia.
Qed.

Lemma count_equal_three (a : list Z) :
  Forall (fun i => 0 <= i < 3) a ->
  len a = count_equal 0 a + count_equal 1 a + count_equal 2 a.
Proof.
  induction a as [|x a IH]; intro H; [reflexivity|].
  inversion H as [|? ? Hx Ha]; subst.
  rewrite len_cons, !count_equal_cons, (IH Ha).
  destruct (Z.eqb_spec 0 x), (Z.eqb_spec 1 x), (Z.eqb_spec 2 x); lia.
Qed.

Lemma count_equal_all (m : Z) (a : list Z) :
  count_equal m a = len a <-> Forall (eq m) a.
Proof.
  induction a as [|x a IH].
  - split; [constructor|reflexivity].
  - rewrite count_equal_cons, len_cons.
    pose proof (count_equal_le_len m a) as Hle.
    destruct (m =? x) eqn:E.
    + apply Z.eqb_eq in E. subst x. split.
      * intro H. constructor; [reflexivity|]. apply IH. lia.
      * intro H. inversion H; subst. apply IH in H3. lia.
    + apply Z.eqb_neq in E. split; [lia|].
      intro H. inversion H; subst. contradiction.
Qed.

Lemma count_equal_perm (v : Z) (a a' : list Z) :
  Permutation a a' -> count_equal v a = count_equal v a'.
Proof.
  intro H. induction H as [|x a a' H IH|x y a|a a' a'' H1 IH1 H2 IH2].
  - reflexivity.
  - rewrite !count_equal_cons, IH. reflexivity.
  - rewrite !count_equal_cons. lia.
  - congruence.
Qed.

Lemma np_argmax_axis1_map (y_predicts : list (list float)) :
  Forall (fun row => row <> []) y_predicts ->
  np_argmax_axis1 y_predicts = Returns (map argmax_of y_predicts).
Proof.
  induction 1 as [|row rest Hrow Hrest IH]; [reflexivity|].
  cbn [np_argmax_axis1 map]. unfold argmax_of at 1.
  destruct row as [|x row]; [contradiction|].
  cbn [np_argmax bind]. rewrite IH. reflexivity.
Qed.

Lemma np_argmax_axis1_empty_row (y_predicts : list (list float)) :
  In [] y_predicts -> np_argmax_axis1 y_predicts = Raises ValueError.
Proof.
  induction y_predicts as [|row rest IH]; intro H; [contradiction|].
  cbn [np_argmax_axis1]. destruct row as [|x row]; [reflexivity|].
  destruct H as [H|H]; [discriminate|].
  cbn [np_argmax bind]. rewrite (IH H). reflexivity.
Qed.

Lemma argmax_of_bound (row : list float) :
  0 < len row -> 0 <= argmax_of row < len row.
Proof.
  intro H. destruct (np_argmax_bound row H) as [i [Hi Hb]].
  unfold argmax_of. rewrite Hi. exact Hb.
Qed.

Lemma aggregate_returns (am : list Z) (total : Z) :
  am <> [] -> Forall (fun i => 0 <= i < n_classes) am ->
  exists m label,
    aggregate am total
    = Returns (m, label, (inject_Z (count_equal m am) / inject_Z total)%Q) /\
    py_getitem LABELS m = Returns label /\
    In m am /\
    (forall v, count_equal v am <= count_equal m am) /\
    (forall v, count_equal v am = count_equal m am -> m <= v).
Proof.
  intros Hne Hall.
  destruct (stats_mode_spec am Hne) as [m [c [Hmode [Hin [Hc [Hmax Hmin]]]]]].
  rewrite Forall_forall in Hall. pose proof (Hall m Hin) as Hm.
  destruct (py_getitem_in_range LABELS m Hm) as [label Hlab].
  exists m, label. subst c. split; [|auto].
  unfold aggregate. rewrite Hmode. cbn [fst snd].
  change (py_getitem [m] 0) with (Returns m).
  change (py_getitem [count_equal m am] 0) with (Returns (count_equal m am)).
  cbn [bind]. rewrite Hlab. reflexivity.
Qed.

Lemma three_class_argmaxes (y_predicts : list (list float)) :
  y_predicts <> [] ->
  Forall (fun row => len row = n_classes) y_predicts ->
  np_argmax_axis1 y_predicts = Returns (map argmax_of y_predicts) /\
  map argmax_of y_predicts <> [] /\
  Forall (fun i => 0 <= i < n_classes) (map argmax_of y_predicts).
Proof.
  intros Hne Hrows. split; [|split].
  - apply np_argmax_axis1_map. eapply Forall_impl; [|exact Hrows].
    intros row Hr ->. discriminate.
  - destruct y_predicts; [contradiction|discriminate].
  - apply Forall_map. eapply Forall_impl; [|exact Hrows].
    intros row Hr. cbv beta. rewrite <- Hr. apply argmax_of_bound.
    rewrite Hr. reflexivity.
Qed.

(** With three classes the reported confidence is never below one third:
    the most frequent of three indices occurs in at least a third of the
    windows.  It is 1 exactly when every window has the same argmax. *)
Theorem confidence_bounds (y_predicts : list (list float)) :
  y_predicts <> [] ->
  Forall (fun row => len row = n_classes) y_predicts ->
  exists m label conf,
    predict_recording y_predicts = Returns (m, label, conf) /\
    (1 # 3 <= conf)%Q /\
    ((conf == 1)%Q <-> Forall (fun row => argmax_of row = m) y_predicts).
Proof.
  intros Hne Hrows.
  destruct (three_class_argmaxes y_predicts Hne Hrows) as [Ham [Hne' Hall]].
  destruct (aggregate_returns (map argmax_of y_predicts) (len y_predicts)
              Hne' Hall)
    as [m [label [Hagg [Hlab [Hin [Hmax Hmin]]]]]].
  set (am := map argmax_of y_predicts) in *.
  assert (Hlen : len am = len y_predicts)
    by (unfold am, len; now rewrite length_map).
  assert (Hpos : 0 < len y_predicts).
  { destruct y_predicts; [contradiction|]. rewrite len_cons.
    pose proof (len_nonneg y_predicts). lia. }
  assert (Hq : (0 < inject_Z (len y_predicts))%Q)
    by (unfold Qlt, inject_Z; cbn [Qnum Qden]; lia).
  exists m, label, (inject_Z (count_equal m am) / inject_Z (len y_predicts))%Q.
  split; [unfold predict_recording; rewrite Ham; exact Hagg|]. split.
  - apply Qle_shift_div_l; [exact Hq|].
    pose proof (count_equal_three am Hall) as H3.
    pose proof (Hmax 0). pose proof (Hmax 1). pose proof (Hmax 2).
    unfold Qle, Qmult, inject_Z. cbn [Qnum Qden]. lia.
  - split.
    + intro H1.
      assert (Hc : count_equal m am = len am).
      { assert (Heq : (inject_Z (count_equal m am)
                       == 1 * inject_Z (len y_predicts))%Q).
        { rewrite <- H1. field. intro H0. rewrite H0 in Hq.
          exact (Qlt_irrefl _ Hq). }
        rewrite Qmult_1_l in Heq. apply (proj1 (inject_Z_injective _ _)) in Heq. lia. }
      apply count_equal_all in Hc. unfold am in Hc.
      rewrite Forall_map in Hc. eapply Forall_impl; [|exact Hc].
      intros row Hr. symmetry. exact Hr.
    + intro Hall1.
      assert (Hc : count_equal m am = len am).
      { apply count_equal_all. unfold am. rewrite Forall_map.
        eapply Forall_impl; [|exact Hall1]. intros row Hr. symmetry. exact Hr. }
      rewrite Hc, Hlen. field. intro H0. rewrite H0 in Hq.
      exact (Qlt_irrefl _ Hq).
Qed.

Lemma confidence_bounds_witness :
  let y_predicts := [[0.5; 0.25; 0.25]; [0.25; 0.5; 0.25]; [0.5; 0.5; 0]]%float in
  exists m label conf,
    predict_recording y_predicts = Returns (m, label, conf) /\
    (1 # 3 <= conf)%Q /\
    ((conf == 1)%Q <-> Forall (fun row => argmax_of row = m) y_predicts).
Proof.
  intro y_predicts. apply (confidence_bounds y_predicts).
  - discriminate.
  - repeat constructor.
Defined.

Lemma stats_mode_perm (a a' : list Z) :
  Permutation a a' -> stats_mode a = stats_mode a'.
Proof.
  intro H.
  destruct a as [|x a0].
  - apply Permutation_nil in H. subst a'. reflexivity.
  - remember (x :: a0) as a eqn:Ea.
    assert (Hne : a <> []) by (rewrite Ea; discriminate).
    clear Ea.
    assert (Hne' : a' <> []).
    { intro E. subst a'. apply Permutation_sym, Permutation_nil in H.
      contradiction. }
    destruct (stats_mode_spec a Hne) as [m [c [Hm [Hin [Hc [Hmax Hmin]]]]]].
    destruct (stats_mode_spec a' Hne') as [m' [c' [Hm' [Hin' [Hc' [Hmax' Hmin']]]]]].
    rewrite Hm, Hm'.
    assert (Hcount : forall v, count_equal v a = count_equal v a')
      by (intro v; apply count_equal_perm; exact H).
    assert (Hceq : c = c').
    { pose proof (Hmax m') as H1. pose proof (Hmax' m) as H2.
      rewrite Hcount in H1. rewrite <- Hcount in H2. lia. }
    assert (Hmeq : m = m').
    { apply Z.le_antisymm.
      - apply Hmin. rewrite Hcount. lia.
      - apply Hmin'. rewrite <- Hcount. lia. }
    rewrite Hceq, Hmeq. reflexivity.
Qed.

Lemma rows_empty_or_not (y_predicts : list (list float)) :
  In [] y_predicts \/ Forall (fun row => row <> []) y_predicts.
Proof.
  induction y_predicts as [|row rest IH]; [right; constructor|].
  destruct row as [|x row]; [left; now left|].
  destruct IH as [H|H]; [left; now right|].
  right. constructor; [discriminate|exact H].
Qed.

(** The result does not depend on the order of the windows: permuting the
    prediction batch changes neither the outcome, nor the class, nor the
    label, nor the confidence. *)
Theorem predict_recording_order_irrelevant (y_predicts y_predicts' : list (list float)) :
  Permutation y_predicts y_predicts' ->
  predict_recording y_predicts = predict_recording y_predicts'.
Proof.
  intro H. unfold predict_recording.
  destruct (rows_empty_or_not y_predicts) as [He|Hne].
  - rewrite (np_argmax_axis1_empty_row _ He).
    rewrite (np_argmax_axis1_empty_row _ (Permutation_in _ H He)).
    reflexivity.
  - assert (Hne' : Forall (fun row => row <> []) y_predicts').
    { rewrite Forall_forall in *. intros row Hr.
      apply Hne. apply (Permutation_in _ (Permutation_sym H) Hr). }
    rewrite (np_argmax_axis1_map _ Hne), (np_argmax_axis1_map _ Hne').
    cbn [bind]. unfold aggregate.
    rewrite (stats_mode_perm _ _ (Permutation_map argmax_of H)).
    unfold len. rewrite (Permutation_length H). reflexivity.
Qed.

Lemma predict_recording_order_irrelevant_witness :
  predict_recording [[0.5; 0.25; 0.25]; [0.25; 0.5; 0.25]; [0.5; 0.5; 0]]%float
  = predict_recording [[0.25; 0.5; 0.25]; [0.5; 0.25; 0.25]; [0.5; 0.5; 0]]%float.
Proof.
  apply predict_recording_order_irrelevant. apply perm_swap.
Defined.

Lemma unanimous_argmaxes (y_predicts : list (list float)) (k : Z) :
  Forall (fun row => np_argmax row = Returns k) y_predicts ->
  np_argmax_axis1 y_predicts = Returns (repeat k (List.length y_predicts)).
Proof.
  induction 1 as [|row rest Hrow Hrest IH]; [reflexivity|].
  cbn [np_argmax_axis1 List.length repeat]. rewrite Hrow, IH. reflexivity.
Qed.

Lemma stats_mode_repeat (k : Z) (n : nat) :
  stats_mode (repeat k (S n)) = ([k], [Z.of_nat (S n)]).
Proof.
  destruct (stats_mode_spec (repeat k (S n)) ltac:(discriminate))
    as [m [c [Hm [Hin [Hc _]]]]].
  apply repeat_spec in Hin. subst m.
  rewrite Hm. f_equal. f_equal. subst c.
  replace (Z.of_nat (S n)) with (len (repeat k (S n)))
    by (unfold len; now rewrite repeat_length).
  apply count_equal_all. apply Forall_forall.
  intros v Hv. apply repeat_spec in Hv. now subst.
Qed.

(** A recording all of whose windows the classifier assigns to the class
    that training numbered as red is reported as "used", with confidence 1:
    for every corpus over new, used, red in which the three occur, the
    training index of red is 1 and the inference cell names index 1
    "used". *)
Theorem red_recording_reported_as_used (labels : list string)
  (y_predicts : list (list float)) :
  Forall (fun l => In l LABELS) labels ->
  In "new"%string labels -> In "used"%string labels -> In "red"%string labels ->
  y_predicts <> [] ->
  (forall k, training_class_index labels "red" = Some k ->
             Forall (fun row => np_argmax row = Returns k) y_predicts) ->
  exists conf,
    predict_recording y_predicts = Returns (1, "used"%string, conf) /\
    (conf == 1)%Q.
Proof.
  intros Hl Hn Hu Hr Hne Hall.
  assert (Hc : get_dummies_columns labels = ["new"; "red"; "used"]%string).
  { rewrite (columns_of_motor_labels labels Hl). cbn [filter].
    rewrite !present_In by assumption. reflexivity. }
  assert (Hk : training_class_index labels "red" = Some 1).
  { unfold training_class_index. rewrite Hc. reflexivity. }
  specialize (Hall 1 Hk).
  unfold predict_recording. rewrite (unanimous_argmaxes y_predicts 1 Hall).
  cbn [bind]. destruct y_predicts as [|row rest]; [contradiction|].
  cbn [List.length]. unfold aggregate.
  rewrite stats_mode_repeat. cbn [fst snd].
  change (py_getitem [1] 0) with (Returns 1).
  cbn [bind].
  change (py_getitem LABELS 1) with (Returns "used"%string).
  cbn [bind].
  change (py_getitem [Z.of_nat (S (List.length rest))] 0)
    with (Returns (Z.of_nat (S (List.length rest)))).
  cbn [bind]. eexists. split; [reflexivity|].
  unfold len. cbn [List.length]. field.
  unfold Qeq, inject_Z. cbn [Qnum Qden]. lia.
Qed.

Lemma red_recording_reported_as_used_witness :
  exists conf,
    predict_recording [[0.25; 0.5; 0.25]; [0; 1; 0]]%float
    = Returns (1, "used"%string, conf) /\
    (conf == 1)%Q.
Proof.
  apply (red_recording_reported_as_used sound_names
           [[0.25; 0.5; 0.25]; [0; 1; 0]]%float).
  - unfold sound_names, LABELS. repeat constructor; cbn; tauto.
  - cbn; tauto.
  - cbn; tauto.
  - cbn; tauto.
  - discriminate.
  - intros k Hk. vm_compute in Hk. injection Hk as <-.
    repeat constructor.
Defined.

(** ** Loss: sign, one-hot labels and batches *)

Lemma ln_nonpos (p : R) : (0 < p <= 1)%R -> (ln p <= 0)%R.
Proof.
  intros [Hp [Hlt|Heq]].
  - rewrite <- ln_1. left. apply ln_increasing; assumption.
  - subst. rewrite ln_1. lra.
Qed.

Lemma row_loss_nonpos (a b : list R) :
  Forall (fun v => (0 <= v)%R) a ->
  Forall (fun v => (0 < v <= 1)%R) b ->
  (fold_right Rplus 0 (zip_with Rmult a (map ln b)) <= 0)%R.
Proof.
  intro Ha. revert b. induction Ha as [|x a Hx Ha IH]; intros b Hb.
  - cbn. lra.
  - destruct b as [|y b]; [cbn; lra|].
    inversion Hb as [|? ? Hy Hb']; subst.
    cbn [map zip_with fold_right].
    specialize (IH b Hb'). pose proof (ln_nonpos y Hy). nra.
Qed.

Lemma batch_loss_nonpos (y prediction : tensor2) :
  Forall (Forall (fun v => (0 <= v)%R)) y ->
  Forall (Forall (fun v => (0 < v <= 1)%R)) prediction ->
  (tf_reduce_sum (tf_mul y (tf_log prediction)) <= 0)%R.
Proof.
  unfold tf_reduce_sum, tf_mul, tf_log.
  intro Hy. revert prediction.
  induction Hy as [|a y Ha Hy IH]; intros p Hp.
  - cbn. lra.
  - destruct p as [|b p]; [cbn; lra|].
    inversion Hp as [|? ? Hb Hp']; subst.
    cbn [map zip_with List.concat]. rewrite fold_right_Rplus_app.
    specialize (IH p Hp'). pose proof (row_loss_nonpos a b Ha Hb). lra.
Qed.

(** The loss is never negative when the labels are non-negative and the
    predictions are probabilities in (0, 1], as softmax outputs are. *)
Theorem loss_nonnegative (y prediction : tensor2) :
  Forall (Forall (fun v => (0 <= v)%R)) y ->
  Forall (Forall (fun v => (0 < v <= 1)%R)) prediction ->
  (0 <= loss_f y prediction)%R.
Proof.
  intros Hy Hp. unfold loss_f.
  pose proof (batch_loss_nonpos y prediction Hy Hp). lra.
Qed.

Lemma loss_nonnegative_witness :
  (0 <= loss_f [[1; 0; 0]]%R [[/ 2; / 4; / 4]]%R)%R.
Proof.
  apply (loss_nonnegative [[1; 0; 0]]%R [[/ 2; / 4; / 4]]%R).
  - repeat constructor; lra.
  - repeat constructor; lra.
Defined.

Lemma zip_with_app {A B C} (f : A -> B -> C) (a1 a2 : list A) (b1 b2 : list B) :
  List.length a1 = List.length b1 ->
  zip_with f (a1 ++ a2) (b1 ++ b2) = zip_with f a1 b1 ++ zip_with f a2 b2.
Proof.
  revert b1. induction a1 as [|x a1 IH]; intros b1 H.
  - destruct b1; [reflexivity|discriminate].
  - destruct b1 as [|y b1]; [discriminate|].
    cbn [app zip_with]. rewrite IH by (cbn in H; lia). reflexivity.
Qed.

(** The loss of a batch made of two batches is the sum of their losses: it
    is a total over the examples, growing with the batch, and the loss of
    the empty batch is zero. *)
Theorem loss_additive (y1 y2 p1 p2 : tensor2) :
  List.length y1 = List.length p1 ->
  loss_f (y1 ++ y2) (p1 ++ p2) = (loss_f y1 p1 + loss_f y2 p2)%R /\
  loss_f [] p2 = 0%R.
Proof.
  intro H. split.
  - unfold loss_f, tf_reduce_sum, tf_mul, tf_log.
    rewrite map_app, zip_with_app by (now rewrite length_map).
    rewrite concat_app, fold_right_Rplus_app. lra.
  - unfold loss_f, tf_reduce_sum, tf_mul. cbn. lra.
Qed.

Lemma loss_additive_witness :
  loss_f ([[1; 0; 0]] ++ [[0; 1; 0]])%R ([[/ 2; / 4; / 4]] ++ [[/ 4; / 2; / 4]])%R
  = (loss_f [[1; 0; 0]] [[/ 2; / 4; / 4]]
     + loss_f [[0; 1; 0]] [[/ 4; / 2; / 4]])%R /\
  loss_f [] [[/ 4; / 2; / 4]]%R = 0%R.
Proof.
  apply (loss_additive [[1; 0; 0]]%R [[0; 1; 0]]%R
                       [[/ 2; / 4; / 4]]%R [[/ 4; / 2; / 4]]%R).
  reflexivity.
Defined.

Lemma sum_upto_ext (n : nat) (f g : nat -> R) :
  (forall k, (k < n)%nat -> f k = g k) -> sum_upto n f = sum_upto n g.
Proof.
  revert f g. induction n as [|n IH]; intros f g H; [reflexivity|].
  rewrite !sum_upto_shift. rewrite (H O) by lia.
  rewrite (IH (fun k => f (S k)) (fun k => g (S k))); [reflexivity|].
  intros k Hk. apply H. lia.
Qed.

Lemma sum_upto_zero (n : nat) : sum_upto n (fun _ => 0%R) = 0%R.
Proof.
  induction n as [|n IH]; [reflexivity|]. rewrite sum_upto_shift, IH. lra.
Qed.

Lemma sum_upto_indicator (n k : nat) (f : nat -> R) :
  (k < n)%nat ->
  sum_upto n (fun j => ((if Nat.eqb j k then 1 else 0) * f j)%R) = f k.
Proof.
  revert k f. induction n as [|n IH]; intros k f Hk; [lia|].
  rewrite sum_upto_shift. destruct k as [|k].
  - cbn [Nat.eqb].
    rewrite (sum_upto_ext n _ (fun _ => 0%R)), sum_upto_zero; [lra|].
    intros j _. cbn [Nat.eqb]. lra.
  - cbn [Nat.eqb]. rewrite (IH k (fun j => f (S j))) by lia. lra.
Qed.

Lemma length_onehot_real (classes k : nat) :
  List.length (onehot_real classes k) = classes.
Proof. unfold onehot_real. now rewrite length_map, length_seq. Qed.

Lemma nth_onehot_real (classes k j : nat) :
  (j < classes)%nat ->
  nth j (onehot_real classes k) 0%R = if Nat.eqb j k then 1%R else 0%R.
Proof.
  intro Hj. unfold onehot_real.
  rewrite (nth_indep _ 0%R ((fun j => if Nat.eqb j k then 1%R else 0%R) O))
    by (now rewrite length_map, length_seq).
  rewrite (map_nth (fun j => if Nat.eqb j k then 1%R else 0%R)).
  rewrite seq_nth by exact Hj. reflexivity.
Qed.

Lemma row_loss_onehot (classes k : nat) (b : list R) :
  (k < classes)%nat -> List.length b = classes ->
  fold_right Rplus 0%R (zip_with Rmult (onehot_real classes k) (map ln b))
  = ln (nth k b 0%R).
Proof.
  intros Hk Hb.
  rewrite (row_sum classes _ b (length_onehot_real classes k) Hb).
  rewrite (sum_upto_ext classes _
             (fun j => ((if Nat.eqb j k then 1 else 0) * ln (nth j b 0))%R)).
  - apply sum_upto_indicator. exact Hk.
  - intros j Hj. now rewrite nth_onehot_real.
Qed.

(** With one-hot labels and predictions that are all positive (so that
    every logarithm is finite), only the probability given to the true
    class counts: the loss is minus the sum, over the examples, of the
    logarithm of the probability predicted for the example's own class. *)
Theorem loss_of_one_hot_labels (classes : nat) (ks : list nat)
  (prediction : tensor2) :
  List.length prediction = List.length ks ->
  Forall (fun k => (k < classes)%nat) ks ->
  Forall (fun row => List.length row = classes) prediction ->
  Forall (Forall (fun v => (0 < v)%R)) prediction ->
  loss_f (map (onehot_real classes) ks) prediction
  = (- fold_right Rplus 0
         (zip_with (fun k row => ln (nth k row 0)) ks prediction))%R.
Proof.
  unfold loss_f, tf_reduce_sum, tf_mul, tf_log.
  intros Hlen Hk Hp _. f_equal. revert prediction Hlen Hp.
  induction Hk as [|k ks Hk Hks IH]; intros p Hlen Hp.
  - reflexivity.
  - destruct p as [|b p]; [discriminate|].
    inversion Hp as [|? ? Hb Hp']; subst.
    cbn [map zip_with List.concat fold_right].
    rewrite fold_right_Rplus_app, row_loss_onehot by auto.
    rewrite IH by (cbn in Hlen; auto; lia). reflexivity.
Qed.

Lemma loss_of_one_hot_labels_witness :
  loss_f (map (onehot_real 3) [0; 1]%nat)
         [[/ 2; / 4; / 4]; [/ 4; / 2; / 4]]%R
  = (- fold_right Rplus 0
         (zip_with (fun k row => ln (nth k row 0)) [0; 1]%nat
                   [[/ 2; / 4; / 4]; [/ 4; / 2; / 4]]))%R.
Proof.
  apply (loss_of_one_hot_labels 3 [0; 1]%nat).
  - reflexivity.
  - repeat constructor.
  - repeat constructor.
  - repeat constructor; lra.
Defined.
